(** * LinkedIn Recommender: the profile reconciliation pipeline

    A shallow embedding of [services/csv.ts], [services/gemini.ts], [types.ts]
    and of the page logic of the application component ([handleFinalize],
    [startEnrichment], [handleAgentSearch]), followed by the properties the
    specification states about them.

    Conventions of the embedding.
    - A JavaScript string is a sequence of code units; the model keeps the
      code units below 256 (Stdlib [string]).  White space, line terminators
      and case mapping are the ECMAScript ones restricted to that range.
    - A property that may be absent ([undefined]) is an [option]; reading an
      array out of range is list lookup [l !! i].
    - A [TypeError] raised by calling a method on [undefined] is [None] in
      the option monad.
    - [await] and [sleep] only order and pace the calls; they are not
      modelled.  The language model behind [services/gemini.ts] is an
      interface ([Oracle]): a call answers or fails, and what it does is a
      function of the request.
    - [Date.now()] is a clock read, given as a function of the row index. *)

From Stdlib Require Import Ascii String ZArith NArith DecimalString Sorted Permutation Lia.
From stdpp Require Import base option list strings gmap.

(** ** ECMAScript primitives used by the sources *)

Module JS.

Definition dquote : ascii := "034"%char.
Definition squote : ascii := "039"%char.
Definition LF : ascii := "010"%char.
Definition CR : ascii := "013"%char.

(** WhiteSpace and LineTerminator code units ([String.prototype.trim], [\s]):
    TAB, LF, VT, FF, CR, SP and NBSP. *)
Definition isWhiteSpace (c : ascii) : bool :=
  let n := nat_of_ascii c in
  ((9 <=? n) && (n <=? 13)) || (n =? 32) || (n =? 160).

(** The characters the regular-expression dot does not match. *)
Definition isLineTerminator (c : ascii) : bool :=
  Ascii.eqb c LF || Ascii.eqb c CR.

Definition toLowerCaseChar (c : ascii) : ascii :=
  let n := nat_of_ascii c in
  if ((65 <=? n) && (n <=? 90)) || ((192 <=? n) && (n <=? 222) && negb (n =? 215))
  then ascii_of_nat (n + 32)
  else c.

Fixpoint toLowerCase (s : string) : string :=
  match s with
  | EmptyString => EmptyString
  | String c s' => String (toLowerCaseChar c) (toLowerCase s')
  end.

Fixpoint trimStart (s : string) : string :=
  match s with
  | EmptyString => EmptyString
  | String c s' => if isWhiteSpace c then trimStart s' else s
  end.

Fixpoint trimEnd (s : string) : string :=
  match s with
  | EmptyString => EmptyString
  | String c s' =>
      match trimEnd s' with
      | EmptyString => if isWhiteSpace c then EmptyString else String c EmptyString
      | r => String c r
      end
  end.

Definition trim (s : string) : string := trimEnd (trimStart s).

(** [s.includes(q)] *)
Fixpoint includes (s q : string) : bool :=
  String.prefix q s ||
  match s with
  | EmptyString => false
  | String _ s' => includes s' q
  end.

(** [l.join(sep)] on an array of strings *)
Definition join (l : list string) (sep : string) : string := String.concat sep l.

(** [s.split(',')] for a one-character separator *)
Fixpoint split (sep : ascii) (s : string) : list string :=
  match s with
  | EmptyString => [EmptyString]
  | String c s' =>
      if Ascii.eqb c sep then EmptyString :: split sep s'
      else match split sep s' with
           | h :: t => String c h :: t
           | [] => [String c EmptyString]
           end
  end.

(** [l.indexOf(x)], with [None] for -1 *)
Fixpoint indexOf (l : list string) (x : string) : option nat :=
  match l with
  | [] => None
  | y :: l' => if String.eqb y x then Some 0 else S <$> indexOf l' x
  end.

(** Truthiness of a possibly absent string: [undefined] and [''] are falsy. *)
Definition truthy (v : option string) : bool :=
  match v with
  | Some s => negb (String.eqb s EmptyString)
  | None => false
  end.

(** [a || b] with [a] a string and [b] possibly absent *)
Definition orElse (a : string) (b : option string) : option string :=
  if String.eqb a EmptyString then b else Some a.

(** [v || ''] *)
Definition orEmpty (v : option string) : string := default EmptyString v.

(** [${v}] in a template literal *)
Definition interpolate (v : option string) : string := default "undefined" v.

(** Decimal rendering of a non-negative integer in a template literal *)
Definition numberToString (n : N) : string := NilZero.string_of_uint (N.to_uint n).

(** [s.replace] of every double quote by two double quotes (global flag) *)
Fixpoint doubleQuotes (s : string) : string :=
  match s with
  | EmptyString => EmptyString
  | String c s' =>
      if Ascii.eqb c dquote then String dquote (String dquote (doubleQuotes s'))
      else String c (doubleQuotes s')
  end.

(** [s.replace] of every double or single quote by the empty string *)
Fixpoint removeQuotes (s : string) : string :=
  match s with
  | EmptyString => EmptyString
  | String c s' =>
      if Ascii.eqb c dquote || Ascii.eqb c squote then removeQuotes s'
      else String c (removeQuotes s')
  end.

(** [s.replace] with the pattern: a double quote at the start, or a double
    quote at the end (global flag).  The one at the start, and the one at the
    end of what is left, are removed. *)
Definition stripLeadingQuote (s : string) : string :=
  match s with
  | String c s' => if Ascii.eqb c dquote then s' else s
  | EmptyString => EmptyString
  end.

Fixpoint stripTrailingQuote (s : string) : string :=
  match s with
  | EmptyString => EmptyString
  | String c EmptyString => if Ascii.eqb c dquote then EmptyString else s
  | String c s' => String c (stripTrailingQuote s')
  end.

Definition stripOuterQuotes (s : string) : string :=
  stripTrailingQuote (stripLeadingQuote s).

(** Case-insensitive comparison of code units under the [i] flag: below 256
    only the ASCII and Latin-1 letters have a case pair. *)
Definition eqChar (ignoreCase : bool) (a b : ascii) : bool :=
  if ignoreCase then Ascii.eqb (toLowerCaseChar a) (toLowerCaseChar b)
  else Ascii.eqb a b.

(** Does the literal [pat] match at the start of [s]? *)
Fixpoint matchesAt (ignoreCase : bool) (pat s : string) : bool :=
  match pat, s with
  | EmptyString, _ => true
  | String _ _, EmptyString => false
  | String a pat', String b s' => eqChar ignoreCase a b && matchesAt ignoreCase pat' s'
  end.

(** [s.replace(/pat/g, '')] for a literal, non-empty [pat]: every leftmost
    non-overlapping occurrence is removed.  [skip] counts the code units of
    the current occurrence still to be dropped. *)
Fixpoint removeAll (ignoreCase : bool) (pat : string) (skip : nat) (s : string) : string :=
  match s with
  | EmptyString => EmptyString
  | String c s' =>
      match skip with
      | S k => removeAll ignoreCase pat k s'
      | O =>
          if matchesAt ignoreCase pat s
          then removeAll ignoreCase pat (String.length pat - 1) s'
          else String c (removeAll ignoreCase pat 0 s')
      end
  end.

(** [s.replace(/pat.*/g, '')] for a literal, non-empty [pat] without line
    terminators: from each occurrence, the rest of the line is removed. *)
Fixpoint removeToLineEnd (ignoreCase : bool) (pat : string) (skipping : bool) (s : string) : string :=
  match s with
  | EmptyString => EmptyString
  | String c s' =>
      if skipping then
        if isLineTerminator c
        then String c (removeToLineEnd ignoreCase pat false s')
        else removeToLineEnd ignoreCase pat true s'
      else if matchesAt ignoreCase pat s
      then removeToLineEnd ignoreCase pat true s'
      else String c (removeToLineEnd ignoreCase pat false s')
  end.

(** Is there a closing bracket ahead on the same line? *)
Fixpoint closesOnLine (s : string) : bool :=
  match s with
  | EmptyString => false
  | String c s' =>
      if Ascii.eqb c "]"%char then true
      else if isLineTerminator c then false
      else closesOnLine s'
  end.

(** [s.replace(/\[.*?\]/g, '')]: from an opening bracket through the nearest
    closing bracket on the same line. *)
Fixpoint removeBracketed (skipping : bool) (s : string) : string :=
  match s with
  | EmptyString => EmptyString
  | String c s' =>
      if skipping then
        if Ascii.eqb c "]"%char then removeBracketed false s'
        else removeBracketed true s'
      else if Ascii.eqb c "["%char && closesOnLine s'
      then removeBracketed true s'
      else String c (removeBracketed false s')
  end.

(** [s.split(/\r?\n/)[0]]: the text before the first LF, without the CR
    that directly precedes that LF. *)
Fixpoint firstLine (s : string) : string :=
  match s with
  | EmptyString => EmptyString
  | String c s' =>
      if Ascii.eqb c LF then EmptyString
      else if Ascii.eqb c CR && String.prefix (String LF EmptyString) s' then EmptyString
      else String c (firstLine s')
  end.

(** The longest prefix of [s] whose code units satisfy [f] *)
Fixpoint takeWhile (f : ascii -> bool) (s : string) : string :=
  match s with
  | EmptyString => EmptyString
  | String c s' => if f c then String c (takeWhile f s') else EmptyString
  end.

(** [s.match(/https?:\/\/[^\s\]]+/)]: the first match, or [None] for [null]. *)
Definition urlChar (c : ascii) : bool := negb (isWhiteSpace c) && negb (Ascii.eqb c "]"%char).

Definition urlAt (scheme s : string) : option string :=
  if String.prefix scheme s then
    match takeWhile urlChar (String.substring (String.length scheme) (String.length s) s) with
    | EmptyString => None
    | body => Some (scheme +:+ body)
    end
  else None.

Fixpoint matchUrl (s : string) : option string :=
  match s with
  | EmptyString => None
  | String _ s' =>
      match urlAt "https://" s with
      | Some u => Some u
      | None =>
          match urlAt "http://" s with
          | Some u => Some u
          | None => matchUrl s'
          end
      end
  end.

(** [Array.prototype.sort(comparefn)]: a stable sort; [comparefn a b <= 0]
    keeps [a] before [b]. *)
Fixpoint sortInsert {A} (comparefn : A -> A -> Z) (x : A) (l : list A) : list A :=
  match l with
  | [] => [x]
  | y :: l' => if (comparefn x y <=? 0)%Z then x :: l else y :: sortInsert comparefn x l'
  end.

Definition sort {A} (comparefn : A -> A -> Z) (l : list A) : list A :=
  foldr (sortInsert comparefn) [] l.

(** [new Map(entries)] keyed by strings: later entries replace earlier ones. *)
Definition newMap {V} (entries : list (string * V)) : gmap string V :=
  foldl (fun m e => <[e.1 := e.2]> m) (empty : gmap string V) entries.

Definition has {V} (m : gmap string V) (k : string) : bool := bool_decide (is_Some (m !! k)).

End JS.

(** ** types.ts *)

Module GroundingLink.
Record t := mk { uri : string; title : string }.
End GroundingLink.

Module FieldType.
Inductive t := name | title | company | linkedin_url | email | ignore.
End FieldType.

Module ColumnMapping.
Record t := mk {
  header : string;
  mappedTo : FieldType.t;
  preview : list string;
  autoDetected : bool
}.
End ColumnMapping.

Inductive EnrichmentStatus := pending | processing | success | fallback | error.

Inductive EnrichmentSource := none | gemini_web | title_inference.

(** A profile as it exists at run time.  The interface declares [name],
    [title] and [company] as always present, but [finalizeProfiles] builds
    the object field by field from the mapped columns, so each of them may be
    absent.  [is_valid] is not declared by the interface: it arrives when an
    extraction result is spread into the profile. *)
Module Profile.
Record t := mk {
  id : string;
  name : option string;
  title : option string;
  company : option string;
  region : option string;
  linkedin_url : option string;
  email : option string;
  selected : option bool;
  years_of_experience : option string;
  background : option string;
  what_they_do : option string;
  achievements : option string;
  skills : option (list string);
  grounding_urls : option (list GroundingLink.t);
  match_reason : option string;
  score : option Z;
  enrichment_status : EnrichmentStatus;
  enrichment_source : EnrichmentSource;
  is_valid : option bool
}.

Definition set_name (v : option string) (p : t) : t :=
  mk (id p) v (title p) (company p) (region p) (linkedin_url p) (email p) (selected p)
     (years_of_experience p) (background p) (what_they_do p) (achievements p) (skills p)
     (grounding_urls p) (match_reason p) (score p) (enrichment_status p) (enrichment_source p)
     (is_valid p).

Definition set_title (v : option string) (p : t) : t :=
  mk (id p) (name p) v (company p) (region p) (linkedin_url p) (email p) (selected p)
     (years_of_experience p) (background p) (what_they_do p) (achievements p) (skills p)
     (grounding_urls p) (match_reason p) (score p) (enrichment_status p) (enrichment_source p)
     (is_valid p).

Definition set_company (v : option string) (p : t) : t :=
  mk (id p) (name p) (title p) v (region p) (linkedin_url p) (email p) (selected p)
     (years_of_experience p) (background p) (what_they_do p) (achievements p) (skills p)
     (grounding_urls p) (match_reason p) (score p) (enrichment_status p) (enrichment_source p)
     (is_valid p).

Definition set_region (v : option string) (p : t) : t :=
  mk (id p) (name p) (title p) (company p) v (linkedin_url p) (email p) (selected p)
     (years_of_experience p) (background p) (what_they_do p) (achievements p) (skills p)
     (grounding_urls p) (match_reason p) (score p) (enrichment_status p) (enrichment_source p)
     (is_valid p).

Definition set_linkedin_url (v : option string) (p : t) : t :=
  mk (id p) (name p) (title p) (company p) (region p) v (email p) (selected p)
     (years_of_experience p) (background p) (what_they_do p) (achievements p) (skills p)
     (grounding_urls p) (match_reason p) (score p) (enrichment_status p) (enrichment_source p)
     (is_valid p).

Definition set_email (v : option string) (p : t) : t :=
  mk (id p) (name p) (title p) (company p) (region p) (linkedin_url p) v (selected p)
     (years_of_experience p) (background p) (what_they_do p) (achievements p) (skills p)
     (grounding_urls p) (match_reason p) (score p) (enrichment_status p) (enrichment_source p)
     (is_valid p).

Definition set_background (v : option string) (p : t) : t :=
  mk (id p) (name p) (title p) (company p) (region p) (linkedin_url p) (email p) (selected p)
     (years_of_experience p) v (what_they_do p) (achievements p) (skills p)
     (grounding_urls p) (match_reason p) (score p) (enrichment_status p) (enrichment_source p)
     (is_valid p).

Definition set_what_they_do (v : option string) (p : t) : t :=
  mk (id p) (name p) (title p) (company p) (region p) (linkedin_url p) (email p) (selected p)
     (years_of_experience p) (background p) v (achievements p) (skills p)
     (grounding_urls p) (match_reason p) (score p) (enrichment_status p) (enrichment_source p)
     (is_valid p).

Definition set_skills (v : option (list string)) (p : t) : t :=
  mk (id p) (name p) (title p) (company p) (region p) (linkedin_url p) (email p) (selected p)
     (years_of_experience p) (background p) (what_they_do p) (achievements p) v
     (grounding_urls p) (match_reason p) (score p) (enrichment_status p) (enrichment_source p)
     (is_valid p).

Definition set_match_reason (v : option string) (p : t) : t :=
  mk (id p) (name p) (title p) (company p) (region p) (linkedin_url p) (email p) (selected p)
     (years_of_experience p) (background p) (what_they_do p) (achievements p) (skills p)
     (grounding_urls p) v (score p) (enrichment_status p) (enrichment_source p)
     (is_valid p).

Definition set_score (v : option Z) (p : t) : t :=
  mk (id p) (name p) (title p) (company p) (region p) (linkedin_url p) (email p) (selected p)
     (years_of_experience p) (background p) (what_they_do p) (achievements p) (skills p)
     (grounding_urls p) (match_reason p) v (enrichment_status p) (enrichment_source p)
     (is_valid p).

Definition set_enrichment_status (v : EnrichmentStatus) (p : t) : t :=
  mk (id p) (name p) (title p) (company p) (region p) (linkedin_url p) (email p) (selected p)
     (years_of_experience p) (background p) (what_they_do p) (achievements p) (skills p)
     (grounding_urls p) (match_reason p) (score p) v (enrichment_source p)
     (is_valid p).

Definition set_enrichment_source (v : EnrichmentSource) (p : t) : t :=
  mk (id p) (name p) (title p) (company p) (region p) (linkedin_url p) (email p) (selected p)
     (years_of_experience p) (background p) (what_they_do p) (achievements p) (skills p)
     (grounding_urls p) (match_reason p) (score p) (enrichment_status p) v
     (is_valid p).
End Profile.

Module LogEntry.
Record t := mk { name : option string; status : EnrichmentStatus; message : string }.
End LogEntry.

Inductive Phase := identifying | extracting.

(** The progress object.  Its [percentage] is a rendering of a floating-point
    quotient for display and is left out. *)
Module EnrichmentProgress.
Record t := mk {
  current : nat;
  total : nat;
  currentName : option string;
  phase : Phase;
  logs : list LogEntry.t
}.
End EnrichmentProgress.

(** The state of the enrichment loop: the array being filled and the
    progress object *)
Module Batch.
Record t := mk { enriched : list Profile.t; progress : EnrichmentProgress.t }.
End Batch.

Module EnrichmentResult.
Record t := mk {
  years_of_experience : string;
  background : string;
  what_they_do : string;
  achievements : string;
  skills : list string;
  region : string;
  is_valid : bool;
  grounding_urls : list GroundingLink.t
}.
End EnrichmentResult.

Module FallbackResult.
Record t := mk {
  typical_responsibilities : string;
  typical_skills : list string
}.
End FallbackResult.

(** The answer of [identifyRole] *)
Module RoleInfo.
Record t := mk { title : string; company : string; region : string }.
End RoleInfo.

(** One element of the answer of [recommendProfiles].  The score is a JSON
    number that the request asks to be between 0 and 100; it is kept as an
    integer. *)
Module Recommendation.
Record t := mk { id : string; score : Z; reason : string }.
End Recommendation.

(** ** services/csv.ts *)

(** *** parseRawCSV *)

Module Scan.
Record t := mk {
  result : list (list string);
  row : list string;
  currField : string;
  inQuotes : bool
}.
Definition init : t := mk [] [] EmptyString false.
End Scan.

(** [text[i + 1]] *)
Definition peek (rest : string) : option ascii :=
  match rest with
  | EmptyString => None
  | String d _ => Some d
  end.

Definition isChar (c : ascii) (o : option ascii) : bool :=
  match o with
  | Some d => Ascii.eqb d c
  | None => false
  end.

Definition pushChar (st : Scan.t) (c : ascii) : Scan.t :=
  Scan.mk (Scan.result st) (Scan.row st) (Scan.currField st +:+ String c EmptyString) (Scan.inQuotes st).

Definition setInQuotes (st : Scan.t) (b : bool) : Scan.t :=
  Scan.mk (Scan.result st) (Scan.row st) (Scan.currField st) b.

Definition endField (st : Scan.t) : Scan.t :=
  Scan.mk (Scan.result st) (Scan.row st ++ [JS.trim (Scan.currField st)]) EmptyString (Scan.inQuotes st).

Definition endRow (st : Scan.t) : Scan.t :=
  Scan.mk (Scan.result st ++ [Scan.row st ++ [JS.trim (Scan.currField st)]]) [] EmptyString (Scan.inQuotes st).

(** The body of the scanning loop at index [i], with [char = text[i]] and
    [nextChar = text[i + 1]].  The boolean tells whether the body advanced
    [i] by one more. *)
Definition scanStep (char : ascii) (nextChar : option ascii) (st : Scan.t) : Scan.t * bool :=
  if Scan.inQuotes st then
    if Ascii.eqb char JS.dquote && isChar JS.dquote nextChar then (pushChar st JS.dquote, true)
    else if Ascii.eqb char JS.dquote then (setInQuotes st false, false)
    else (pushChar st char, false)
  else
    if Ascii.eqb char JS.dquote then (setInQuotes st true, false)
    else if Ascii.eqb char ","%char then (endField st, false)
    else if Ascii.eqb char JS.LF || (Ascii.eqb char JS.CR && isChar JS.LF nextChar)
    then (endRow st, Ascii.eqb char JS.CR)
    else if Ascii.eqb char JS.CR && negb (isChar JS.LF nextChar) then (endRow st, false)
    else (pushChar st char, false).

(** The loop over the text; [skip] holds when the previous body advanced
    the index past the current code unit. *)
Fixpoint scanLoop (text : string) (skip : bool) (st : Scan.t) : Scan.t :=
  match text with
  | EmptyString => st
  | String char rest =>
      if skip then scanLoop rest false st
      else let '(st', extra) := scanStep char (peek rest) st in scanLoop rest extra st'
  end.

Definition flush (st : Scan.t) : list (list string) :=
  if negb (Nat.eqb (length (Scan.row st)) 0) || negb (String.eqb (Scan.currField st) EmptyString)
  then Scan.result (endRow st)
  else Scan.result st.

Module Parsed.
Record t := mk { headers : list string; rows : list (list string) }.
End Parsed.

Definition parseRawCSV (text : string) : Parsed.t :=
  let result := flush (scanLoop text false Scan.init) in
  Parsed.mk (default [] (result !! 0)) (drop 1 result).

(** *** parseEnrichedCSV *)

(** [(idx !== -1 ? row[idx] : dflt)]: absent when the row is too short. *)
Definition cell (idx : option nat) (dflt : string) (row : list string) : option string :=
  match idx with
  | Some k => row !! k
  | None => Some dflt
  end.

(** [(idx !== -1 ? row[idx] : dflt).replace(...)]: calling [replace] on an
    absent cell raises. *)
Definition unquotedCell (idx : option nat) (dflt : string) (row : list string) : option string :=
  JS.stripOuterQuotes <$> cell idx dflt row.

Definition parseSkills (skillsIdx : option nat) (row : list string) : list string :=
  let skillsRaw := cell skillsIdx EmptyString row in
  if JS.truthy skillsRaw then
    List.filter (fun s => negb (String.eqb s EmptyString))
      (List.map (fun s => JS.stripOuterQuotes (JS.trim s)) (JS.split ","%char (JS.orEmpty skillsRaw)))
  else [].

Section Clock.

(** [Date.now()] when the row at the given index is processed *)
Variable Date_now : nat -> N.

Definition restoredId (i : nat) : string :=
  "restored-" +:+ JS.numberToString (N.of_nat i) +:+ "-" +:+ JS.numberToString (Date_now i).

Definition restoreRow (h : list string) (i : nat) (row : list string) : option Profile.t :=
  let skills := parseSkills (JS.indexOf h "skills") row in
  name ← unquotedCell (JS.indexOf h "name") "Unknown" row;
  title ← unquotedCell (JS.indexOf h "title") EmptyString row;
  company ← unquotedCell (JS.indexOf h "company") EmptyString row;
  region ← unquotedCell (JS.indexOf h "region") EmptyString row;
  linkedin_url ← unquotedCell (JS.indexOf h "linkedin") EmptyString row;
  years_of_experience ← unquotedCell (JS.indexOf h "years of experience") EmptyString row;
  background ← unquotedCell (JS.indexOf h "background") EmptyString row;
  what_they_do ← unquotedCell (JS.indexOf h "responsibilities") EmptyString row;
  achievements ← unquotedCell (JS.indexOf h "achievements") EmptyString row;
  Some (Profile.mk (restoredId i) (Some name) (Some title) (Some company) (Some region)
          (Some linkedin_url) None (Some true) (Some years_of_experience) (Some background)
          (Some what_they_do) (Some achievements) (Some skills) None None None
          success gemini_web None).

Fixpoint restoreRows (h : list string) (i : nat) (rows : list (list string)) : option (list Profile.t) :=
  match rows with
  | [] => Some []
  | row :: rows' =>
      p ← restoreRow h i row;
      ps ← restoreRows h (S i) rows';
      Some (p :: ps)
  end.

Definition normalizeHeader (header : string) : string :=
  JS.trim (JS.removeQuotes (JS.toLowerCase header)).

Definition parseEnrichedCSV (headers : list string) (rows : list (list string)) : option (list Profile.t) :=
  restoreRows (List.map normalizeHeader headers) 0 rows.

(** *** detectMappings *)

Definition detectField (h : string) : FieldType.t * bool :=
  if JS.includes h "name" then (FieldType.name, true)
  else if JS.includes h "title" || JS.includes h "role" then (FieldType.title, true)
  else if JS.includes h "company" || JS.includes h "work" then (FieldType.company, true)
  else if JS.includes h "linkedin" || JS.includes h "profile" then (FieldType.linkedin_url, true)
  else if JS.includes h "email" then (FieldType.email, true)
  else (FieldType.ignore, false).

Definition detectMappings (headers : list string) (rows : list (list string)) : list ColumnMapping.t :=
  imap (fun idx header =>
          let '(mappedTo, autoDetected) := detectField (JS.toLowerCase header) in
          let preview :=
            List.filter (fun v => negb (String.eqb v EmptyString))
              (List.map (fun r => default EmptyString (r !! idx)) (take 3 rows)) in
          ColumnMapping.mk header mappedTo preview autoDetected)
       headers.

(** *** cleanLumaGarbage and finalizeProfiles *)

Definition placeholders : list string :=
  ["n/a"; "na"; "none"; "."; "0"; "not applicable"; "#n/a"].

Definition cleanLumaGarbage (val : option string) : string :=
  if negb (JS.truthy val) then EmptyString
  else
    let line := JS.firstLine (JS.orEmpty val) in
    let cleaned :=
      JS.trim
        (JS.removeToLineEnd false "|" false
           (JS.removeAll true "registered for your event" 0
              (JS.removeToLineEnd true "has registered for" false
                 (JS.removeBracketed false line)))) in
    if existsb (String.eqb (JS.toLowerCase cleaned)) placeholders then EmptyString
    else cleaned.

Definition unknownAttendee : string := "Unknown Attendee".

(** The object literal a record starts from *)
Definition newProfile (rowIdx : nat) : Profile.t :=
  Profile.mk
    ("profile-" +:+ JS.numberToString (N.of_nat rowIdx) +:+ "-" +:+ JS.numberToString (Date_now rowIdx))
    None None None None None None (Some true) None None None None None None None None
    pending none None.

(** The callback of [mappings.forEach] for column [colIdx] *)
Definition applyMapping (row : list string) (colIdx : nat) (m : ColumnMapping.t) (profile : Profile.t) : Profile.t :=
  let val := row !! colIdx in
  match ColumnMapping.mappedTo m with
  | FieldType.ignore => profile
  | FieldType.name =>
      let cleaned := cleanLumaGarbage val in
      Profile.set_name (Some (if String.eqb cleaned EmptyString then unknownAttendee else cleaned)) profile
  | FieldType.linkedin_url => Profile.set_linkedin_url (val ≫= JS.matchUrl) profile
  | FieldType.title => Profile.set_title (Some (cleanLumaGarbage val)) profile
  | FieldType.company => Profile.set_company (Some (cleanLumaGarbage val)) profile
  | FieldType.email => Profile.set_email (Some (cleanLumaGarbage val)) profile
  end.

Fixpoint forEachMapping (row : list string) (colIdx : nat) (mappings : list ColumnMapping.t) (profile : Profile.t) : Profile.t :=
  match mappings with
  | [] => profile
  | m :: mappings' => forEachMapping row (S colIdx) mappings' (applyMapping row colIdx m profile)
  end.

Definition finalizeProfiles (mappings : list ColumnMapping.t) (rows : list (list string)) : list Profile.t :=
  imap (fun rowIdx row => forEachMapping row 0 mappings (newProfile rowIdx)) rows.

End Clock.

(** *** exportToCSV *)

Definition exportHeaders : list string :=
  ["Name"; "Title"; "Company"; "Region"; "LinkedIn"; "Years of Experience"; "Background";
   "Responsibilities"; "Achievements"; "Skills"].

(** A field value between double quotes, its own double quotes doubled *)
Definition quoted (v : string) : string :=
  String JS.dquote (JS.doubleQuotes v) +:+ String JS.dquote EmptyString.

(** One exported line.  [p.name.replace] raises when the name is absent;
    every other field falls back to the empty string. *)
Definition exportRow (p : Profile.t) : option string :=
  name ← Profile.name p;
  Some (JS.join
          [ quoted name;
            quoted (JS.orEmpty (Profile.title p));
            quoted (JS.orEmpty (Profile.company p));
            quoted (JS.orEmpty (Profile.region p));
            quoted (JS.orEmpty (Profile.linkedin_url p));
            quoted (JS.orEmpty (Profile.years_of_experience p));
            quoted (JS.orEmpty (Profile.background p));
            quoted (JS.orEmpty (Profile.what_they_do p));
            quoted (JS.orEmpty (Profile.achievements p));
            quoted (JS.join (default [] (Profile.skills p)) ", ") ]
          ",").

Definition exportToCSV (profiles : list Profile.t) : option string :=
  rows ← mapM exportRow profiles;
  Some (JS.join (JS.join exportHeaders "," :: rows) (String JS.LF EmptyString)).

(** ** services/gemini.ts *)

(** The language model behind the four requests.  Each call either yields
    the parsed answer of the declared response schema or fails ([None]):
    a transport error, a provider error or an answer that does not parse. *)
Class Oracle := {
  askRole : option string -> option string -> option RoleInfo.t;
  askEnrichment : option string -> option string -> option string -> option string -> option EnrichmentResult.t;
  askFallback : option string -> option string -> option FallbackResult.t;
  askRanking : string -> list (string * string) -> option (list Recommendation.t)
}.

Section Gemini.

Context {oracle : Oracle}.

(** Failures are caught and answered by three empty strings. *)
Definition identifyRole (name linkedinUrl : option string) : RoleInfo.t :=
  match askRole name linkedinUrl with
  | Some info => info
  | None => RoleInfo.mk EmptyString EmptyString EmptyString
  end.

(** The condensed text sent for one profile *)
Definition profileInfo (p : Profile.t) : string :=
  JS.interpolate (Profile.name p) +:+ ", " +:+ JS.interpolate (Profile.title p) +:+ " @ "
  +:+ JS.interpolate (Profile.company p) +:+ " in " +:+ JS.interpolate (Profile.region p)
  +:+ ". Background: " +:+ JS.interpolate (Profile.background p)
  +:+ ". Skills: " +:+ JS.join (default [] (Profile.skills p)) ", ".

(** Failures are caught and answered by the empty list. *)
Definition recommendProfiles (query : string) (profiles : list Profile.t) : list Recommendation.t :=
  default [] (askRanking query (List.map (fun p => (Profile.id p, profileInfo p)) profiles)).

(** Failures are logged and raised again: [None]. *)
Definition enrichWithGemini (name title company linkedinUrl : option string) : option EnrichmentResult.t :=
  askEnrichment name title company linkedinUrl.

Definition inferFromTitle (title company : option string) : FallbackResult.t :=
  if negb (JS.truthy title) && negb (JS.truthy company)
  then FallbackResult.mk "Information unavailable." ["Professional"]
  else match askFallback title company with
       | Some r => r
       | None => FallbackResult.mk "N/A" []
       end.

(** ** The application component *)

(** [!p.title || !p.company] *)
Definition roleMissing (title company : option string) : bool :=
  negb (JS.truthy title) || negb (JS.truthy company).

(** *** handleFinalize: identification after the column mapping *)

(** The body of the loop over the finalized profiles: the profile is
    updated in place. *)
Definition discoverRole (p : Profile.t) : Profile.t :=
  if roleMissing (Profile.title p) (Profile.company p) then
    let roleInfo := identifyRole (Profile.name p) (Profile.linkedin_url p) in
    let p1 := Profile.set_title (JS.orElse (RoleInfo.title roleInfo) (Profile.title p)) p in
    let p2 := Profile.set_company (JS.orElse (RoleInfo.company roleInfo) (Profile.company p1)) p1 in
    Profile.set_region (JS.orElse (RoleInfo.region roleInfo) (Profile.region p2)) p2
  else p.

(** The list handed to [onComplete] *)
Definition handleFinalize (Date_now : nat -> N) (mappings : list ColumnMapping.t) (rows : list (list string)) : list Profile.t :=
  let initialProfiles := finalizeProfiles Date_now mappings rows in
  let missingRoles :=
    List.filter (fun p => roleMissing (Profile.title p) (Profile.company p)) initialProfiles in
  if 0 <? length missingRoles then List.map discoverRole initialProfiles
  else initialProfiles.

(** *** startEnrichment *)

(** [currentTitle] and [currentCompany] after the role discovery block *)
Definition currentRole (p : Profile.t) : option string * option string :=
  let currentTitle := Profile.title p in
  let currentCompany := Profile.company p in
  if roleMissing currentTitle currentCompany then
    let discovered := identifyRole (Profile.name p) (Profile.linkedin_url p) in
    (JS.orElse (RoleInfo.title discovered) currentTitle,
     JS.orElse (RoleInfo.company discovered) currentCompany)
  else (currentTitle, currentCompany).

(** The three object literals pushed to [enriched] *)
Definition successRecord (p : Profile.t) (result : EnrichmentResult.t) (currentTitle currentCompany : option string) : Profile.t :=
  Profile.mk (Profile.id p) (Profile.name p) currentTitle currentCompany
    (Some (EnrichmentResult.region result)) (Profile.linkedin_url p) (Profile.email p)
    (Profile.selected p)
    (Some (EnrichmentResult.years_of_experience result))
    (Some (EnrichmentResult.background result))
    (Some (EnrichmentResult.what_they_do result))
    (Some (EnrichmentResult.achievements result))
    (Some (EnrichmentResult.skills result))
    (Some (EnrichmentResult.grounding_urls result))
    (Profile.match_reason p) (Profile.score p) success gemini_web
    (Some (EnrichmentResult.is_valid result)).

Definition genericBackground : string := "Professional connection.".

Definition fallbackRecord (p : Profile.t) (fb : FallbackResult.t) (currentTitle currentCompany : option string) : Profile.t :=
  Profile.mk (Profile.id p) (Profile.name p) currentTitle currentCompany
    (Profile.region p) (Profile.linkedin_url p) (Profile.email p) (Profile.selected p)
    (Profile.years_of_experience p)
    (Some genericBackground)
    (Some (FallbackResult.typical_responsibilities fb))
    (Profile.achievements p)
    (Some (FallbackResult.typical_skills fb))
    (Profile.grounding_urls p)
    (Profile.match_reason p) (Profile.score p) fallback title_inference
    (Profile.is_valid p).

Definition errorRecord (p : Profile.t) : Profile.t :=
  Profile.set_enrichment_source none (Profile.set_enrichment_status error p).

Definition addLog (entry : LogEntry.t) (pr : EnrichmentProgress.t) : EnrichmentProgress.t :=
  EnrichmentProgress.mk (EnrichmentProgress.current pr) (EnrichmentProgress.total pr)
    (EnrichmentProgress.currentName pr) (EnrichmentProgress.phase pr)
    (take 50 (entry :: EnrichmentProgress.logs pr)).

Definition setPhase (ph : Phase) (pr : EnrichmentProgress.t) : EnrichmentProgress.t :=
  EnrichmentProgress.mk (EnrichmentProgress.current pr) (EnrichmentProgress.total pr)
    (EnrichmentProgress.currentName pr) ph (EnrichmentProgress.logs pr).

Definition setCurrent (i : nat) (name : option string) (pr : EnrichmentProgress.t) : EnrichmentProgress.t :=
  EnrichmentProgress.mk (i + 1) (EnrichmentProgress.total pr) name
    (EnrichmentProgress.phase pr) (EnrichmentProgress.logs pr).

(** The [try] block and its [catch]: the record pushed and the log entry *)
Definition extractStep (p : Profile.t) (currentTitle currentCompany : option string) : Profile.t * LogEntry.t :=
  match enrichWithGemini (Profile.name p) currentTitle currentCompany (Profile.linkedin_url p) with
  | Some result =>
      if EnrichmentResult.is_valid result
      then (successRecord p result currentTitle currentCompany,
            LogEntry.mk (Profile.name p) success "Extracted")
      else
        let fb := inferFromTitle currentTitle currentCompany in
        (fallbackRecord p fb currentTitle currentCompany,
         LogEntry.mk (Profile.name p) success "Extracted")
  | None => (errorRecord p, LogEntry.mk (Profile.name p) error "Error")
  end.

(** The record one iteration pushes for the profile [p] *)
Definition enrichedRecord (p : Profile.t) : Profile.t :=
  (extractStep p (currentRole p).1 (currentRole p).2).1.

(** One iteration of the loop, for the profile at index [i] *)
Definition enrichStep (i : nat) (p : Profile.t) (st : Batch.t) : Batch.t :=
  let pr1 := setCurrent i (Profile.name p) (Batch.progress st) in
  let pr2 := if roleMissing (Profile.title p) (Profile.company p) then setPhase identifying pr1 else pr1 in
  let '(currentTitle, currentCompany) := currentRole p in
  let pr3 := setPhase extracting pr2 in
  let '(record, entry) := extractStep p currentTitle currentCompany in
  Batch.mk (Batch.enriched st ++ [record]) (addLog entry pr3).

Fixpoint enrichLoop (i : nat) (profiles : list Profile.t) (st : Batch.t) : Batch.t :=
  match profiles with
  | [] => st
  | p :: profiles' => enrichLoop (S i) profiles' (enrichStep i p st)
  end.

Definition initialProgress (profiles : list Profile.t) : EnrichmentProgress.t :=
  EnrichmentProgress.mk 0 (length profiles) (Some EmptyString) identifying [].

Definition runEnrichment (profiles : list Profile.t) : Batch.t :=
  enrichLoop 0 profiles (Batch.mk [] (initialProgress profiles)).

(** The list handed to [onComplete] *)
Definition startEnrichment (profiles : list Profile.t) : list Profile.t :=
  Batch.enriched (runEnrichment profiles).

(** *** handleAgentSearch *)

Definition allRegions : string := "All Regions".

Definition regionFilter (selectedRegion : string) (profiles : list Profile.t) : list Profile.t :=
  if negb (String.eqb selectedRegion allRegions)
  then List.filter (fun p => bool_decide (Profile.region p = Some selectedRegion)) profiles
  else profiles.

(** The text a profile is searched in *)
Definition searchText (p : Profile.t) : string :=
  JS.toLowerCase
    (JS.interpolate (Profile.name p) +:+ " " +:+ JS.interpolate (Profile.title p) +:+ " "
     +:+ JS.interpolate (Profile.company p) +:+ " " +:+ JS.interpolate (Profile.background p) +:+ " "
     +:+ JS.join (default [] (Profile.skills p)) " ").

Definition substringFilter (q : string) (filtered : list Profile.t) : list Profile.t :=
  List.filter (fun p => JS.includes (searchText p) q) filtered.

(** [(b.score || 0) - (a.score || 0)] *)
Definition scoreOrZero (p : Profile.t) : Z := default 0%Z (Profile.score p).

Definition byScoreDescending (a b : Profile.t) : Z := (scoreOrZero b - scoreOrZero a)%Z.

Definition attachMatch (recMap : gmap string Recommendation.t) (p : Profile.t) : Profile.t :=
  Profile.set_match_reason (Recommendation.reason <$> recMap !! Profile.id p)
    (Profile.set_score (Recommendation.score <$> recMap !! Profile.id p) p).

Definition rankedMatches (recommendations : list Recommendation.t) (filtered : list Profile.t) : list Profile.t :=
  let recMap := JS.newMap (List.map (fun r => (Recommendation.id r, r)) recommendations) in
  JS.sort byScoreDescending
    (List.map (attachMatch recMap)
       (List.filter (fun p => JS.has recMap (Profile.id p)) filtered)).

(** The list handed to [setResults] *)
Definition handleAgentSearch (searchQuery selectedRegion : string) (profiles : list Profile.t) : list Profile.t :=
  let q := JS.trim (JS.toLowerCase searchQuery) in
  let filtered := regionFilter selectedRegion profiles in
  if String.eqb q EmptyString then filtered
  else if 10 <? String.length q then
    let recommendations := recommendProfiles q filtered in
    if 0 <? length recommendations then rankedMatches recommendations filtered
    else substringFilter q filtered
  else substringFilter q filtered.

End Gemini.

(** ** The pages around the pipeline *)

(** *** MappingPage: updateMapping *)

(** [prev.map((m, i) => i === idx ? { ...m, mappedTo: field } : m)] *)
Definition updateMapping (idx : nat) (field : FieldType.t) (prev : list ColumnMapping.t) : list ColumnMapping.t :=
  imap (fun i m =>
          if Nat.eqb i idx
          then ColumnMapping.mk (ColumnMapping.header m) field (ColumnMapping.preview m)
                 (ColumnMapping.autoDetected m)
          else m)
       prev.

(** *** SelectionPage *)

(** [{ ...p, selected: v }] *)
Definition setSelected (v : option bool) (p : Profile.t) : Profile.t :=
  Profile.mk (Profile.id p) (Profile.name p) (Profile.title p) (Profile.company p) (Profile.region p)
    (Profile.linkedin_url p) (Profile.email p) v
    (Profile.years_of_experience p) (Profile.background p) (Profile.what_they_do p)
    (Profile.achievements p) (Profile.skills p) (Profile.grounding_urls p)
    (Profile.match_reason p) (Profile.score p) (Profile.enrichment_status p)
    (Profile.enrichment_source p) (Profile.is_valid p).

(** Truthiness of [p.selected]: absent and [false] are falsy. *)
Definition isSelected (p : Profile.t) : bool := default false (Profile.selected p).

(** [prev.map(p => p.id === id ? { ...p, selected: !p.selected } : p)] *)
Definition toggle (id : string) (prev : list Profile.t) : list Profile.t :=
  List.map (fun p => if String.eqb (Profile.id p) id
                     then setSelected (Some (negb (isSelected p))) p
                     else p)
           prev.

(** The predicate of [filteredList]: the lower-cased role search occurs in
    the lower-cased title, company or name. *)
Definition matchesRoleSearch (roleSearch : string) (p : Profile.t) : bool :=
  let search := JS.toLowerCase roleSearch in
  JS.includes (JS.toLowerCase (JS.orEmpty (Profile.title p))) search
  || JS.includes (JS.toLowerCase (JS.orEmpty (Profile.company p))) search
  || JS.includes (JS.toLowerCase (JS.orEmpty (Profile.name p))) search.

Definition filteredList (roleSearch : string) (lst : list Profile.t) : list Profile.t :=
  List.filter (matchesRoleSearch roleSearch) lst.

(** [selectFiltered(selected)]: the ids of the filtered list are collected
    in a set, and every record whose id is in the set gets the flag. *)
Definition selectFiltered (roleSearch : string) (selected : bool) (prev : list Profile.t) : list Profile.t :=
  let filteredIds : gset string := list_to_set (List.map Profile.id (filteredList roleSearch prev)) in
  List.map (fun p => if bool_decide (Profile.id p ∈ filteredIds)
                     then setSelected (Some selected) p
                     else p)
           prev.

(** [list.filter(p => p.selected).length] *)
Definition selectedCount (lst : list Profile.t) : nat := length (List.filter isSelected lst).

(** The list handed to [onStart] *)
Definition selectedProfiles (lst : list Profile.t) : list Profile.t := List.filter isSelected lst.

(** *** ResultsPage: the regions offered *)

(** The values of [new Set(l)] in insertion order: first occurrences. *)
Fixpoint setValues (seen l : list string) : list string :=
  match l with
  | [] => seen
  | x :: l' =>
      if existsb (String.eqb x) seen then setValues seen l'
      else setValues (seen ++ [x]) l'
  end.

(** [profiles.map(p => p.region).filter(Boolean)] *)
Definition truthyRegions (profiles : list Profile.t) : list string :=
  omap (fun p => if JS.truthy (Profile.region p) then Profile.region p else None) profiles.

Definition regions (profiles : list Profile.t) : list string :=
  allRegions :: setValues [] (truthyRegions profiles).

(** *** UploadPage: restoring a tabular export *)



(** ** Vocabulary of the specification *)

(** The statuses a record may have once the batch is done *)
Definition terminalStatus (s : EnrichmentStatus) : bool :=
  match s with
  | success | fallback | error => true
  | pending | processing => false
  end.

(** Every field other than the enrichment status and source agrees. *)
Definition sameButStatusAndSource (p r : Profile.t) : Prop :=
  Profile.id r = Profile.id p /\
  Profile.name r = Profile.name p /\
  Profile.title r = Profile.title p /\
  Profile.company r = Profile.company p /\
  Profile.region r = Profile.region p /\
  Profile.linkedin_url r = Profile.linkedin_url p /\
  Profile.email r = Profile.email p /\
  Profile.selected r = Profile.selected p /\
  Profile.years_of_experience r = Profile.years_of_experience p /\
  Profile.background r = Profile.background p /\
  Profile.what_they_do r = Profile.what_they_do p /\
  Profile.achievements r = Profile.achievements p /\
  Profile.skills r = Profile.skills p /\
  Profile.grounding_urls r = Profile.grounding_urls p /\
  Profile.match_reason r = Profile.match_reason p /\
  Profile.score r = Profile.score p /\
  Profile.is_valid r = Profile.is_valid p.

(** A field after the identification step, given the answer [a] for it:
    the answer when it is not empty, the previous value otherwise. *)
Definition takesAnswer (a : string) (old new : option string) : Prop :=
  (a <> EmptyString /\ new = Some a) \/ (a = EmptyString /\ new = old).

(** Every field other than title, company and region agrees. *)
Definition sameButRole (p r : Profile.t) : Prop :=
  Profile.id r = Profile.id p /\
  Profile.name r = Profile.name p /\
  Profile.linkedin_url r = Profile.linkedin_url p /\
  Profile.email r = Profile.email p /\
  Profile.selected r = Profile.selected p /\
  Profile.years_of_experience r = Profile.years_of_experience p /\
  Profile.background r = Profile.background p /\
  Profile.what_they_do r = Profile.what_they_do p /\
  Profile.achievements r = Profile.achievements p /\
  Profile.skills r = Profile.skills p /\
  Profile.grounding_urls r = Profile.grounding_urls p /\
  Profile.match_reason r = Profile.match_reason p /\
  Profile.score r = Profile.score p /\
  Profile.is_valid r = Profile.is_valid p /\
  Profile.enrichment_status r = Profile.enrichment_status p /\
  Profile.enrichment_source r = Profile.enrichment_source p.

(** The record carries a name that is not the empty string. *)
Definition hasNonEmptyName (p : Profile.t) : Prop :=
  exists s, Profile.name p = Some s /\ s <> EmptyString.

Definition isNameMapping (m : ColumnMapping.t) : bool :=
  match ColumnMapping.mappedTo m with
  | FieldType.name => true
  | _ => false
  end.

(** The specification's wording of the export quoting: [e] is [v] with each
    double quote doubled, and a field is [e] between two double quotes. *)
Inductive Doubled : string -> string -> Prop :=
  | Doubled_empty : Doubled EmptyString EmptyString
  | Doubled_quote v e :
      Doubled v e -> Doubled (String JS.dquote v) (String JS.dquote (String JS.dquote e))
  | Doubled_other c v e :
      c <> JS.dquote -> Doubled v e -> Doubled (String c v) (String c e).

Definition Enclosed (v field : string) : Prop :=
  exists e, Doubled v e /\ field = String JS.dquote (e +:+ String JS.dquote EmptyString).

(** The ten values of an exported record, in column order *)
Definition exportValues (name : string) (p : Profile.t) : list string :=
  [ name;
    JS.orEmpty (Profile.title p);
    JS.orEmpty (Profile.company p);
    JS.orEmpty (Profile.region p);
    JS.orEmpty (Profile.linkedin_url p);
    JS.orEmpty (Profile.years_of_experience p);
    JS.orEmpty (Profile.background p);
    JS.orEmpty (Profile.what_they_do p);
    JS.orEmpty (Profile.achievements p);
    JS.join (default [] (Profile.skills p)) ", " ].

Definition headerLine : string :=
  "Name,Title,Company,Region,LinkedIn,Years of Experience,Background,Responsibilities,Achievements,Skills".


(** The hit a candidate is scored by: the last one of the answer that
    carries its id. *)
Definition hitFor (hits : list Recommendation.t) (id : string) : option Recommendation.t :=
  last (List.filter (fun r => String.eqb (Recommendation.id r) id) hits).

(** Does the id of the candidate appear among the hits? *)
Definition hasHit (hits : list Recommendation.t) (p : Profile.t) : bool :=
  existsb (fun r => String.eqb (Recommendation.id r) (Profile.id p)) hits.

(** The candidate with the score and the reason of its hit attached *)
Definition withHit (hits : list Recommendation.t) (p : Profile.t) : Profile.t :=
  Profile.set_match_reason (Recommendation.reason <$> hitFor hits (Profile.id p))
    (Profile.set_score (Recommendation.score <$> hitFor hits (Profile.id p)) p).

(** The comparison function of a descending sort by [key] *)
Definition descendingBy {A} (key : A -> Z) (a b : A) : Z := (key b - key a)%Z.


(** ** Vocabulary of the further properties *)

(** No white space at the start *)
Definition noLeadingSpace (s : string) : Prop :=
  match s with
  | EmptyString => True
  | String c _ => JS.isWhiteSpace c = false
  end.

(** Every code unit of the string satisfies [f]. *)
Fixpoint allChars (f : ascii -> bool) (s : string) : bool :=
  match s with
  | EmptyString => true
  | String c s' => f c && allChars f s'
  end.

(** A cell without white space around it *)
Definition trimmedCell (c : string) : Prop := JS.trim c = c.

(** A row with at least one cell, each of them trimmed *)
Definition wellFormedRow (r : list string) : Prop := r <> [] /\ Forall trimmedCell r.

Definition scanInvariant (st : Scan.t) : Prop :=
  Forall wellFormedRow (Scan.result st) /\ Forall trimmedCell (Scan.row st).


(** The exported line of a list of values: each between quotes, joined by
    commas *)
Definition cellsLine (vs : list string) : string := JS.join (List.map quoted vs) ",".

(** The ten values exported for a profile; an absent name reads as empty
    here, the export itself raises on it. *)
Definition exportedValues (p : Profile.t) : list string :=
  exportValues (JS.orEmpty (Profile.name p)) p.

(** A text cell after a tabular round trip: trimmed, and without a double
    quote at its start and at its end *)
Definition restoredCell (v : string) : string := JS.stripOuterQuotes (JS.trim v).



(** A skill that the tabular format carries unchanged: not empty, no white
    space around it, no comma in it, no double quote at its start or end *)
Definition plainSkill (s : string) : Prop :=
  s <> EmptyString /\
  JS.trim s = s /\
  allChars (fun c => negb (Ascii.eqb c ","%char)) s = true /\
  JS.stripOuterQuotes s = s.

(** The name the finalizer gives for a raw cell *)
Definition nameFromCell (val : option string) : string :=
  let cleaned := cleanLumaGarbage val in
  if String.eqb cleaned EmptyString then unknownAttendee else cleaned.

(** The index of the last column mapped to the name, counted from [colIdx] *)
Fixpoint lastNameColumn (colIdx : nat) (mappings : list ColumnMapping.t) : option nat :=
  match mappings with
  | [] => None
  | m :: mappings' =>
      match lastNameColumn (S colIdx) mappings' with
      | Some k => Some k
      | None => if isNameMapping m then Some colIdx else None
      end
  end.

(** The fields the finalizer never fills, and the three it initialises *)
Definition untouchedByFinalizer (p : Profile.t) : Prop :=
  Profile.region p = None /\
  Profile.years_of_experience p = None /\
  Profile.background p = None /\
  Profile.what_they_do p = None /\
  Profile.achievements p = None /\
  Profile.skills p = None /\
  Profile.grounding_urls p = None /\
  Profile.match_reason p = None /\
  Profile.score p = None /\
  Profile.is_valid p = None /\
  Profile.selected p = Some true /\
  Profile.enrichment_status p = pending /\
  Profile.enrichment_source p = none.

(** The log entry of a profile: an error entry when the extraction request
    fails, a success entry otherwise *)
Definition logEntryFor `{Oracle} (p : Profile.t) : LogEntry.t :=
  (extractStep p (currentRole p).1 (currentRole p).2).2.

(** The columns whose cell the restore reads with a method call; the skills
    cell is read without one. *)
Definition requiredColumns : list string :=
  ["name"; "title"; "company"; "region"; "linkedin"; "years of experience"; "background";
   "responsibilities"; "achievements"].

(** The row has a cell for each of these columns that the header row [h]
    names. *)
Definition rowComplete (h : list string) (row : list string) : bool :=
  forallb (fun c => match JS.indexOf h c with
                    | Some k => k <? length row
                    | None => true
                    end)
          requiredColumns.

(** Every field other than the selection flag agrees. *)
Definition sameButSelected (p r : Profile.t) : Prop :=
  setSelected (Profile.selected p) r = p.

(** A result of the search: a candidate as it is, or with a score and a
    reason attached *)
Definition candidateOrScored (p r : Profile.t) : Prop :=
  r = p \/
  exists score reason,
    r = Profile.set_match_reason (Some reason) (Profile.set_score (Some score) p).

(** The characters that mean something to the tokenizer *)
Definition isSpecial (c : ascii) : bool :=
  Ascii.eqb c JS.dquote || Ascii.eqb c ","%char || Ascii.eqb c JS.LF || Ascii.eqb c JS.CR.

(** A cell that can be written without quotes *)
Definition plainCell (s : string) : Prop := allChars (fun c => negb (isSpecial c)) s = true.

(** A last line that the tokenizer keeps at the end of the text: it has two
    cells or more, or one cell that is not empty. *)
Definition endsText (vs : list string) : Prop :=
  2 <= length vs \/ exists v, vs = [v] /\ v <> EmptyString.

(** ** Concrete scenarios *)

Module Scenario.

Definition clock (i : nat) : N := 1700000000000%N.

Definition blank (id : string) (name : option string) : Profile.t :=
  Profile.mk id name None None None None None (Some true) None None None None None None None None
    pending none None.

(** Ada has a title but no company. *)
Definition ada : Profile.t := Profile.set_title (Some "CEO") (blank "profile-0-1" (Some "Ada")).

(** Bob has both, and the extraction finds nothing valid about him. *)
Definition bob : Profile.t :=
  Profile.set_company (Some "Initech") (Profile.set_title (Some "Engineer") (blank "profile-1-1" (Some "Bob"))).

(** The extraction request fails for Cyd. *)
Definition cyd : Profile.t :=
  Profile.set_company (Some "Hooli") (Profile.set_title (Some "Analyst") (blank "profile-2-1" (Some "Cyd"))).

Definition adaFacts : EnrichmentResult.t :=
  EnrichmentResult.mk "12" "Founded two companies." "Runs engineering." "Patent holder."
    ["Leadership"; "Rust"] "Berlin" true [GroundingLink.mk "https://example.org/ada" "Source"].

Definition nothingFound : EnrichmentResult.t :=
  EnrichmentResult.mk EmptyString EmptyString EmptyString EmptyString [] EmptyString false [].

Definition typicalEngineer : FallbackResult.t :=
  FallbackResult.mk "Builds and maintains software." ["Programming"; "Testing"].

Definition hits : list Recommendation.t :=
  [Recommendation.mk "profile-2-1" 70 "Analyst with data skills";
   Recommendation.mk "profile-9-9" 99 "No such candidate";
   Recommendation.mk "profile-0-1" 70 "Leads a data team";
   Recommendation.mk "profile-1-1" 85 "Data engineer"].

Definition oracle : Oracle := {|
  askRole name _ :=
    if bool_decide (name = Some "Ada") then Some (RoleInfo.mk "CTO" "Acme" "Berlin") else None;
  askEnrichment name _ _ _ :=
    if bool_decide (name = Some "Ada") then Some adaFacts
    else if bool_decide (name = Some "Bob") then Some nothingFound
    else None;
  askFallback _ _ := Some typicalEngineer;
  askRanking query _ :=
    if String.eqb query "find data engineers" then Some hits else Some []
|}.

(** The text of the tokenizer scenario: the header line, a record whose
    first field is quoted and holds a comma, and a final line feed. *)
Definition janeText : string :=
  "Name,Title" +:+ String JS.LF (String JS.dquote "Jane, A" +:+ String JS.dquote ",CEO" +:+ String JS.LF EmptyString).

(** An attendee list whose header row names no column after the name *)
Definition attendeeHeaders : list string := ["Attendee"; "Job Title"].

Definition attendeeRows : list (list string) := [["Jane Roe"; "CEO"]].

(** A record as exported: status error, an id of the first session *)
Definition failed : Profile.t :=
  Profile.set_enrichment_status error (Profile.set_title (Some "Analyst") (blank "profile-7-1" (Some "Cyd"))).

(** A candidate whose name opens the text it is searched in *)
Definition dana : Profile.t := blank "profile-3-1" (Some "Data Engineer").




End Scenario.

(** * Properties *)

(** ** The enrichment batch *)

Section EnrichmentProperties.

Context {oracle : Oracle}.

Lemma enrichStep_enriched i p st :
  Batch.enriched (enrichStep i p st) = Batch.enriched st ++ [enrichedRecord p].
Proof.
  unfold enrichStep, enrichedRecord.
  destruct (currentRole p) as [currentTitle currentCompany]; simpl.
  destruct (extractStep p currentTitle currentCompany) as [record entry]; reflexivity.
Qed.

Lemma enrichLoop_enriched profiles : forall i st,
  Batch.enriched (enrichLoop i profiles st) = Batch.enriched st ++ List.map enrichedRecord profiles.
Proof.
  induction profiles as [|p profiles IH]; intros i st; simpl.
  - by rewrite app_nil_r.
  - rewrite IH, enrichStep_enriched, <- app_assoc. reflexivity.
Qed.

(** The loop pushes, in order, one record per profile. *)
Lemma startEnrichment_map profiles :
  startEnrichment profiles = List.map enrichedRecord profiles.
Proof. unfold startEnrichment, runEnrichment. by rewrite enrichLoop_enriched. Qed.

Lemma enrichedRecord_cases p :
  let ct := (currentRole p).1 in
  let cc := (currentRole p).2 in
  match enrichWithGemini (Profile.name p) ct cc (Profile.linkedin_url p) with
  | Some result =>
      if EnrichmentResult.is_valid result
      then enrichedRecord p = successRecord p result ct cc
      else enrichedRecord p = fallbackRecord p (inferFromTitle ct cc) ct cc
  | None => enrichedRecord p = errorRecord p
  end.
Proof.
  unfold enrichedRecord, extractStep; simpl.
  destruct (enrichWithGemini _ _ _ _) as [result|]; [|reflexivity].
  destruct (EnrichmentResult.is_valid result); reflexivity.
Qed.

(** Case analysis on what the extraction did for [p]: a valid answer, an
    answer that is not valid, or a failure. *)
Ltac enriched_cases p :=
  let H := fresh "Hrecord" in
  pose proof (enrichedRecord_cases p) as H; simpl in H;
  destruct (enrichWithGemini _ _ _ _) as [?result|];
  [destruct (EnrichmentResult.is_valid _)|];
  rewrite H; clear H.

Lemma enrichedRecord_identity p :
  Profile.id (enrichedRecord p) = Profile.id p /\ Profile.name (enrichedRecord p) = Profile.name p.
Proof. enriched_cases p; split; reflexivity. Qed.

Lemma enrichedRecord_terminal p :
  terminalStatus (Profile.enrichment_status (enrichedRecord p)) = true.
Proof. enriched_cases p; reflexivity. Qed.

(** C2.  The batch returns one record per input record, in the input order:
    the record at each position is the outcome of the input at that position,
    carries its id and name, and has a terminal status (success, fallback or
    error).  The outcome of a record is a function of that record alone: with
    any record [p] in the middle of a batch, whatever the extraction does on
    [p], the records before and after it come out as in the batches without
    [p]. *)
Theorem startEnrichment_batch (profiles : list Profile.t) :
  let enriched := startEnrichment profiles in
  length enriched = length profiles /\
  Forall2 (fun p r =>
             r = enrichedRecord p /\
             Profile.id r = Profile.id p /\
             Profile.name r = Profile.name p /\
             terminalStatus (Profile.enrichment_status r) = true)
          profiles enriched /\
  (forall before p after,
      startEnrichment (before ++ p :: after)
      = startEnrichment before ++ enrichedRecord p :: startEnrichment after).
Proof.
  simpl. split; [|split].
  - by rewrite startEnrichment_map, length_map.
  - rewrite startEnrichment_map.
    induction profiles as [|p profiles IH]; simpl; constructor; [|exact IH].
    destruct (enrichedRecord_identity p) as [Hid Hname].
    auto using enrichedRecord_terminal.
  - intros before p after. rewrite !startEnrichment_map, List.map_app. reflexivity.
Qed.

(** A failed extraction in the middle of a batch yields the error record for
    that profile and leaves its neighbours' outcomes as they are. *)
Lemma startEnrichment_isolates_failure before p after :
  enrichWithGemini (Profile.name p) (currentRole p).1 (currentRole p).2 (Profile.linkedin_url p) = None ->
  startEnrichment (before ++ p :: after)
  = startEnrichment before ++ errorRecord p :: startEnrichment after.
Proof.
  intros Hfail. rewrite !startEnrichment_map, List.map_app. simpl.
  pose proof (enrichedRecord_cases p) as H; simpl in H. rewrite Hfail in H. by rewrite H.
Qed.

Lemma startEnrichment_lookup profiles i p :
  profiles !! i = Some p -> startEnrichment profiles !! i = Some (enrichedRecord p).
Proof.
  intros Hp. rewrite startEnrichment_map.
  change (List.map enrichedRecord profiles) with (enrichedRecord <$> profiles).
  by rewrite list_lookup_fmap, Hp.
Qed.

(** C4.  When the extraction request fails for the record at some position
    of the batch, the record returned at that position has status error and
    source none, and each of its other fields (id, name, title, company,
    region, LinkedIn URL, e-mail, selection and every enrichment and ranking
    field) is the field of the input record. *)
Theorem extract_failure_marks_error (profiles : list Profile.t) (i : nat) (p : Profile.t) :
  profiles !! i = Some p ->
  enrichWithGemini (Profile.name p) (currentRole p).1 (currentRole p).2 (Profile.linkedin_url p) = None ->
  exists r,
    startEnrichment profiles !! i = Some r /\
    Profile.enrichment_status r = error /\
    Profile.enrichment_source r = none /\
    sameButStatusAndSource p r.
Proof.
  intros Hp Hfail. exists (enrichedRecord p). split; [by apply startEnrichment_lookup|].
  pose proof (enrichedRecord_cases p) as H; simpl in H. rewrite Hfail in H. rewrite H.
  unfold sameButStatusAndSource. repeat split.
Qed.

(** C5.  When the extraction request succeeds with [is_valid] false, the
    record returned is built from the answer of [inferFromTitle] on the
    current title and company: status fallback, source title_inference,
    [what_they_do] the typical responsibilities, [skills] the typical skills,
    and the fixed background sentence. *)
Theorem invalid_extraction_falls_back (profiles : list Profile.t) (i : nat) (p : Profile.t) (result : EnrichmentResult.t) :
  profiles !! i = Some p ->
  enrichWithGemini (Profile.name p) (currentRole p).1 (currentRole p).2 (Profile.linkedin_url p) = Some result ->
  EnrichmentResult.is_valid result = false ->
  let fb := inferFromTitle (currentRole p).1 (currentRole p).2 in
  exists r,
    startEnrichment profiles !! i = Some r /\
    Profile.enrichment_status r = fallback /\
    Profile.enrichment_source r = title_inference /\
    Profile.what_they_do r = Some (FallbackResult.typical_responsibilities fb) /\
    Profile.skills r = Some (FallbackResult.typical_skills fb) /\
    Profile.background r = Some "Professional connection.".
Proof.
  intros Hp Hres Hinvalid fb. exists (enrichedRecord p).
  split; [by apply startEnrichment_lookup|].
  pose proof (enrichedRecord_cases p) as H; simpl in H. rewrite Hres, Hinvalid in H. rewrite H.
  repeat split.
Qed.

End EnrichmentProperties.

(** ** The identification step *)

Section IdentificationProperties.

Context {oracle : Oracle}.

Lemma orElse_takesAnswer a old : takesAnswer a old (JS.orElse a old).
Proof.
  unfold takesAnswer, JS.orElse.
  destruct (String.eqb_spec a EmptyString) as [->|Hne]; [right|left]; auto.
Qed.

(** The pass that follows the column mapping writes title, company and
    region only, whatever the answer. *)
Lemma discoverRole_sameButRole (p : Profile.t) : sameButRole p (discoverRole p).
Proof. unfold discoverRole, sameButRole. destruct (roleMissing _ _); repeat split. Qed.

(** C1, as the code has it.  When the title or the company of a record is
    missing and the identification request is answered, each of title and
    company (and, in the pass that follows the column mapping, region) takes
    the answer's value when that value is not empty, also over a value the
    record already held, and keeps its previous value when the answer's value
    is empty.  In the enrichment loop the step gives the current title and
    company and writes no field of the record; in the pass that follows the
    column mapping every field of the record other than title, company and
    region is as it was. *)
Theorem identification_prefers_answer (p : Profile.t) (info : RoleInfo.t) :
  roleMissing (Profile.title p) (Profile.company p) = true ->
  askRole (Profile.name p) (Profile.linkedin_url p) = Some info ->
  takesAnswer (RoleInfo.title info) (Profile.title p) (currentRole p).1 /\
  takesAnswer (RoleInfo.company info) (Profile.company p) (currentRole p).2 /\
  takesAnswer (RoleInfo.title info) (Profile.title p) (Profile.title (discoverRole p)) /\
  takesAnswer (RoleInfo.company info) (Profile.company p) (Profile.company (discoverRole p)) /\
  takesAnswer (RoleInfo.region info) (Profile.region p) (Profile.region (discoverRole p)) /\
  sameButRole p (discoverRole p).
Proof.
  intros Hmissing Hanswer. split; [|split; [|split; [|split; [|split]]]];
    [| | | | |apply discoverRole_sameButRole];
    unfold currentRole, discoverRole, identifyRole; rewrite Hmissing, Hanswer; simpl;
    apply orElse_takesAnswer.
Qed.

(** When the answer has nothing for a field, the field keeps its value. *)
Lemma identification_keeps_on_empty_answer (p : Profile.t) :
  roleMissing (Profile.title p) (Profile.company p) = true ->
  askRole (Profile.name p) (Profile.linkedin_url p) = Some (RoleInfo.mk EmptyString EmptyString EmptyString) ->
  currentRole p = (Profile.title p, Profile.company p) /\ discoverRole p = p.
Proof.
  intros Hmissing Hanswer.
  unfold currentRole, discoverRole, identifyRole. rewrite Hmissing, Hanswer.
  split; [reflexivity|]. by destruct p.
Qed.

(** X15.  A failed identification request changes nothing either. *)
Lemma identification_failure_keeps_role (p : Profile.t) :
  askRole (Profile.name p) (Profile.linkedin_url p) = None ->
  currentRole p = (Profile.title p, Profile.company p) /\ discoverRole p = p.
Proof.
  intros Hfail. unfold currentRole, discoverRole, identifyRole. rewrite Hfail.
  destruct (roleMissing _ _); split; try reflexivity. by destruct p.
Qed.

(** The pass that follows the column mapping applies the step to every
    finalized record; a record with both title and company is left as it
    is. *)
Lemma discoverRole_complete (p : Profile.t) :
  roleMissing (Profile.title p) (Profile.company p) = false -> discoverRole p = p.
Proof. intros H. unfold discoverRole. by rewrite H. Qed.

Lemma handleFinalize_map Date_now mappings rows :
  handleFinalize Date_now mappings rows
  = List.map discoverRole (finalizeProfiles Date_now mappings rows).
Proof.
  unfold handleFinalize. generalize (finalizeProfiles Date_now mappings rows) as l. intros l.
  destruct (Nat.ltb_spec 0 (length (List.filter (fun p => roleMissing (Profile.title p) (Profile.company p)) l)))
    as [_|Hnone]; [reflexivity|].
  induction l as [|p l IH]; [reflexivity|]. cbn [List.filter List.map] in *.
  destruct (roleMissing (Profile.title p) (Profile.company p)) eqn:Hp; [simpl in Hnone; lia|].
  by rewrite (discoverRole_complete p Hp), <- IH.
Qed.

End IdentificationProperties.

(** Counterexample to C1 as stated.  Ada's record holds the title CEO and no company;
    the identification answers CTO at Acme, and the title carried into the
    returned record, and the title left by the pass that follows the column
    mapping, is CTO. *)
Lemma identification_overwrites_known_title :
  Profile.title Scenario.ada = Some "CEO" /\
  roleMissing (Profile.title Scenario.ada) (Profile.company Scenario.ada) = true /\
  askRole (Oracle := Scenario.oracle) (Profile.name Scenario.ada) (Profile.linkedin_url Scenario.ada)
  = Some (RoleInfo.mk "CTO" "Acme" "Berlin") /\
  Profile.title <$> (startEnrichment (oracle := Scenario.oracle) [Scenario.ada] !! 0) = Some (Some "CTO") /\
  Profile.title (discoverRole (oracle := Scenario.oracle) Scenario.ada) = Some "CTO".
Proof. repeat split. Qed.

Lemma identification_prefers_answer_witness :
  roleMissing (Profile.title Scenario.ada) (Profile.company Scenario.ada) = true /\
  takesAnswer "CTO" (Some "CEO") (currentRole (oracle := Scenario.oracle) Scenario.ada).1 /\
  takesAnswer "Acme" None (Profile.company (discoverRole (oracle := Scenario.oracle) Scenario.ada)) /\
  sameButRole Scenario.ada (discoverRole (oracle := Scenario.oracle) Scenario.ada).
Proof.
  pose proof (identification_prefers_answer (oracle := Scenario.oracle) Scenario.ada
                (RoleInfo.mk "CTO" "Acme" "Berlin") eq_refl eq_refl) as H.
  split; [reflexivity|].
  split; [exact (proj1 H)|].
  split; [exact (proj1 (proj2 (proj2 (proj2 H))))|exact (proj2 (proj2 (proj2 (proj2 (proj2 H)))))].
Defined.

Lemma extract_failure_marks_error_witness :
  [Scenario.ada; Scenario.cyd] !! 1 = Some Scenario.cyd /\
  exists r,
    startEnrichment (oracle := Scenario.oracle) [Scenario.ada; Scenario.cyd] !! 1 = Some r /\
    Profile.enrichment_status r = error /\
    Profile.enrichment_source r = none /\
    sameButStatusAndSource Scenario.cyd r.
Proof.
  split; [reflexivity|].
  apply (extract_failure_marks_error (oracle := Scenario.oracle) [Scenario.ada; Scenario.cyd] 1 Scenario.cyd);
    reflexivity.
Defined.

Lemma invalid_extraction_falls_back_witness :
  EnrichmentResult.is_valid Scenario.nothingFound = false /\
  exists r,
    startEnrichment (oracle := Scenario.oracle) [Scenario.ada; Scenario.bob] !! 1 = Some r /\
    Profile.enrichment_status r = fallback /\
    Profile.enrichment_source r = title_inference /\
    Profile.what_they_do r = Some "Builds and maintains software." /\
    Profile.skills r = Some ["Programming"; "Testing"] /\
    Profile.background r = Some "Professional connection.".
Proof.
  split; [reflexivity|].
  apply (invalid_extraction_falls_back (oracle := Scenario.oracle) [Scenario.ada; Scenario.bob] 1
           Scenario.bob Scenario.nothingFound); reflexivity.
Defined.

(** ** The tokenizer *)

(** C8.  On the header line Name,Title followed by a line feed, the quoted
    field Jane, A, the field CEO and a final line feed, the tokenizer returns
    the headers Name and Title and the single row Jane, A and CEO: the comma
    between the quotes ends no field, the quotes are dropped, and the final
    line feed adds no row. *)
Theorem parseRawCSV_quoted_comma :
  String.length Scenario.janeText = 25 /\
  Scan.result (scanLoop Scenario.janeText false Scan.init) = [["Name"; "Title"]; ["Jane, A"; "CEO"]] /\
  parseRawCSV Scenario.janeText = Parsed.mk ["Name"; "Title"] [["Jane, A"; "CEO"]].
Proof.
  split; [reflexivity|]. split; [vm_compute; reflexivity|].
  unfold parseRawCSV. vm_compute. reflexivity.
Qed.

(** ** The finalizer *)

Section FinalizerProperties.

Variable Date_now : nat -> N.

Lemma applyMapping_name row colIdx m profile :
  if isNameMapping m
  then hasNonEmptyName (applyMapping row colIdx m profile)
  else Profile.name (applyMapping row colIdx m profile) = Profile.name profile.
Proof.
  unfold isNameMapping, applyMapping.
  destruct (ColumnMapping.mappedTo m); try reflexivity.
  unfold hasNonEmptyName; simpl.
  destruct (String.eqb_spec (cleanLumaGarbage (row !! colIdx)) EmptyString) as [_|Hne];
    eexists; split; try reflexivity; [discriminate|exact Hne].
Qed.

Lemma forEachMapping_name row mappings : forall colIdx profile,
  (existsb isNameMapping mappings = false ->
   Profile.name (forEachMapping row colIdx mappings profile) = Profile.name profile) /\
  (existsb isNameMapping mappings = true \/ hasNonEmptyName profile ->
   hasNonEmptyName (forEachMapping row colIdx mappings profile)).
Proof.
  induction mappings as [|m mappings IH]; intros colIdx profile; simpl.
  - split; [reflexivity|]. intros [H|H]; [discriminate|exact H].
  - pose proof (applyMapping_name row colIdx m profile) as Hm.
    destruct (IH (S colIdx) (applyMapping row colIdx m profile)) as [IHkeep IHname].
    destruct (isNameMapping m); simpl.
    + split; [discriminate|]. intros _. apply IHname. by right.
    + split.
      * intros Hnone. by rewrite IHkeep, Hm.
      * intros [Hsome|Hname]; apply IHname; [by left|right].
        destruct Hname as (s & Hs & Hne). exists s. by rewrite Hm.
Qed.

(** With a column mapped to the name, every finalized record has a name
    that is not empty: an empty cleaned cell gives the placeholder label. *)
Lemma finalizeProfiles_name_nonempty mappings rows :
  existsb isNameMapping mappings = true ->
  Forall hasNonEmptyName (finalizeProfiles Date_now mappings rows).
Proof.
  intros Hname. apply Forall_lookup. intros i p Hp.
  unfold finalizeProfiles in Hp. rewrite list_lookup_imap in Hp.
  destruct (rows !! i) as [row|]; simpl in Hp; [|discriminate].
  injection Hp as <-. apply forEachMapping_name. by left.
Qed.

(** Without one, the name stays absent. *)
Lemma finalizeProfiles_name_absent mappings rows :
  existsb isNameMapping mappings = false ->
  Forall (fun p => Profile.name p = None) (finalizeProfiles Date_now mappings rows).
Proof.
  intros Hnone. apply Forall_lookup. intros i p Hp.
  unfold finalizeProfiles in Hp. rewrite list_lookup_imap in Hp.
  destruct (rows !! i) as [row|]; simpl in Hp; [|discriminate].
  injection Hp as <-.
  by rewrite (proj1 (forEachMapping_name row mappings 0 (newProfile Date_now i)) Hnone).
Qed.

Lemma finalizeProfiles_length mappings rows :
  length (finalizeProfiles Date_now mappings rows) = length rows.
Proof. unfold finalizeProfiles. apply length_imap. Qed.

End FinalizerProperties.

(** C3, at the input where the code departs from it.  The header row
    Attendee, Job Title has no column that [detectMappings] maps to the name,
    so the mapping is ignore, title; the record finalized from the row
    Jane Roe, CEO then has no name at all, where the claim promises a
    non-empty one, and exporting that record raises. *)
Theorem finalizeProfiles_without_name_column :
  let mappings := detectMappings Scenario.attendeeHeaders Scenario.attendeeRows in
  let profiles := finalizeProfiles Scenario.clock mappings Scenario.attendeeRows in
  List.map ColumnMapping.mappedTo mappings = [FieldType.ignore; FieldType.title] /\
  List.map Profile.name profiles = [None] /\
  List.map Profile.title profiles = [Some "CEO"] /\
  exportToCSV profiles = None.
Proof. vm_compute. repeat split. Qed.

(** ** The tabular export *)

Lemma doubleQuotes_Doubled v : Doubled v (JS.doubleQuotes v).
Proof.
  induction v as [|c v IH]; simpl; [constructor|].
  destruct (Ascii.eqb_spec c JS.dquote) as [->|Hne]; by constructor.
Qed.

Lemma quoted_Enclosed v : Enclosed v (quoted v).
Proof. exists (JS.doubleQuotes v). split; [apply doubleQuotes_Doubled|reflexivity]. Qed.

(** Doubling is injective: the value can be read back from the field. *)
Lemma Doubled_functional v e : Doubled v e -> forall v', Doubled v' e -> v = v'.
Proof.
  induction 1 as [|v e _ IH|c v e Hc _ IH]; intros v' H'; inversion H'; subst;
    try congruence; f_equal; auto.
Qed.

Lemma append_cons (x : ascii) (a b : string) : String x a +:+ b = String x (a +:+ b).
Proof. reflexivity. Qed.

Lemma append_empty_r (a : string) : a +:+ EmptyString = a.
Proof. induction a as [|x a IH]; [reflexivity|by rewrite append_cons, IH]. Qed.

Lemma append_snoc (a : string) (c : ascii) (b : string) :
  (a +:+ String c EmptyString) +:+ b = a +:+ String c b.
Proof. induction a as [|x a IH]; [reflexivity|by rewrite !append_cons, IH]. Qed.

Lemma append_assoc (a b c : string) : (a +:+ b) +:+ c = a +:+ (b +:+ c).
Proof. induction a as [|x a IH]; [reflexivity|by rewrite !append_cons, IH]. Qed.

Lemma scanLoop_cons c text st :
  scanLoop (String c text) false st
  = scanLoop text (scanStep c (peek text) st).2 (scanStep c (peek text) st).1.
Proof. simpl. by destruct (scanStep c (peek text) st). Qed.

(** Between quotes the tokenizer reads a doubled value back: whatever
    follows, it has appended the value to the field and is still between
    quotes. *)
Lemma scanLoop_Doubled v e : Doubled v e -> forall rest res row acc,
  scanLoop (e +:+ rest) false (Scan.mk res row acc true)
  = scanLoop rest false (Scan.mk res row (acc +:+ v) true).
Proof.
  induction 1 as [|v e _ IH|c v e Hc _ IH]; intros rest res row acc.
  - change (EmptyString +:+ rest) with rest. by rewrite append_empty_r.
  - rewrite !append_cons, scanLoop_cons.
    change (scanStep JS.dquote (peek (String JS.dquote (e +:+ rest))) (Scan.mk res row acc true))
      with (Scan.mk res row (acc +:+ String JS.dquote EmptyString) true, true).
    cbn [fst snd]. change (scanLoop (String JS.dquote (e +:+ rest)) true ?st) with (scanLoop (e +:+ rest) false st).
    by rewrite IH, append_snoc.
  - rewrite append_cons, scanLoop_cons.
    assert (Hstep : scanStep c (peek (e +:+ rest)) (Scan.mk res row acc true)
                    = (Scan.mk res row (acc +:+ String c EmptyString) true, false)).
    { unfold scanStep; cbn [Scan.inQuotes].
      destruct (Ascii.eqb_spec c JS.dquote) as [->|_]; [done|reflexivity]. }
    rewrite Hstep. cbn [fst snd]. by rewrite IH, append_snoc.
Qed.

(** An exported field is read back as its value, provided that what follows
    the closing quote is not another quote. *)
Lemma scanLoop_quoted v rest res row acc :
  isChar JS.dquote (peek rest) = false ->
  scanLoop (quoted v +:+ rest) false (Scan.mk res row acc false)
  = scanLoop rest false (Scan.mk res row (acc +:+ v) false).
Proof.
  intros Hrest. unfold quoted.
  rewrite !append_cons, scanLoop_cons.
  change (scanStep JS.dquote ?n (Scan.mk res row acc false)) with (Scan.mk res row acc true, false).
  cbn [fst snd].
  rewrite append_assoc, (scanLoop_Doubled v _ (doubleQuotes_Doubled v)).
  rewrite append_cons, scanLoop_cons.
  change (EmptyString +:+ rest) with rest.
  assert (Hstep : scanStep JS.dquote (peek rest) (Scan.mk res row (acc +:+ v) true)
                  = (Scan.mk res row (acc +:+ v) false, false)).
  { unfold scanStep; cbn [Scan.inQuotes]. rewrite Hrest. reflexivity. }
  by rewrite Hstep.
Qed.

Lemma exportRow_format p name :
  Profile.name p = Some name ->
  exists cells,
    exportRow p = Some (JS.join cells ",") /\ Forall2 Enclosed (exportValues name p) cells.
Proof.
  intros Hname. exists (List.map quoted (exportValues name p)).
  split; [unfold exportRow; by rewrite Hname|].
  unfold exportValues; cbn [List.map]. repeat constructor; apply quoted_Enclosed.
Qed.

Lemma mapM_exportRow_format profiles :
  Forall (fun p => is_Some (Profile.name p)) profiles ->
  exists lines,
    mapM exportRow profiles = Some lines /\
    Forall2 (fun p line =>
               exists name cells,
                 Profile.name p = Some name /\
                 line = JS.join cells "," /\
                 Forall2 Enclosed (exportValues name p) cells)
            profiles lines.
Proof.
  induction 1 as [|p profiles [name Hname] _ (lines & Hlines & Hall)].
  - exists []. split; [reflexivity|constructor].
  - destruct (exportRow_format p name Hname) as (cells & Hrow & Hcells).
    exists (JS.join cells "," :: lines). split.
    + simpl. rewrite Hrow. simpl. rewrite Hlines. reflexivity.
    + constructor; [|exact Hall]. by exists name, cells.
Qed.

Lemma join_headerLine : JS.join exportHeaders "," = headerLine.
Proof. reflexivity. Qed.

(** The text starts with the header line, and what follows starts a new
    line. *)
Lemma join_lines_first first lines :
  exists rest,
    JS.join (first :: lines) (String JS.LF EmptyString) = first +:+ rest /\
    (rest = EmptyString \/ exists more, rest = String JS.LF more).
Proof.
  destruct lines as [|l lines].
  - exists EmptyString. split; [|by left].
    unfold JS.join. cbn [String.concat]. by rewrite append_empty_r.
  - unfold JS.join. cbn [String.concat].
    eexists. split; [reflexivity|]. right. eexists. reflexivity.
Qed.

(** The tokenizer keeps the rows it has finished. *)
Lemma scanLoop_result_grows text : forall skip st,
  exists more, Scan.result (scanLoop text skip st) = Scan.result st ++ more.
Proof.
  induction text as [|c text IH]; intros skip st; simpl.
  - exists []. by rewrite app_nil_r.
  - destruct skip; [apply IH|].
    destruct (scanStep c (peek text) st) as [st' extra] eqn:Hstep.
    destruct (IH extra st') as [more Hmore]. rewrite Hmore.
    assert (exists add, Scan.result st' = Scan.result st ++ add) as [add ->].
    { unfold scanStep in Hstep.
      repeat match type of Hstep with
             | (if ?b then _ else _) = _ => destruct b
             end; injection Hstep as <- _; simpl;
        first [ by exists []; rewrite app_nil_r | eexists; reflexivity ]. }
    exists (add ++ more). by rewrite app_assoc.
Qed.

Lemma flush_result_grows st : exists more, flush st = Scan.result st ++ more.
Proof.
  unfold flush. destruct (_ || _); simpl; [eexists; reflexivity|].
  exists []. by rewrite app_nil_r.
Qed.

Lemma scanLoop_headerLine more :
  scanLoop (headerLine +:+ String JS.LF more) false Scan.init
  = scanLoop more false (Scan.mk [exportHeaders] [] EmptyString false).
Proof. vm_compute. reflexivity. Qed.

(** Read back by the tokenizer, the header row of any text that starts with
    the header line and a line feed is the list of the ten column names. *)
Lemma parseRawCSV_headerLine more :
  Parsed.headers (parseRawCSV (headerLine +:+ String JS.LF more)) = exportHeaders.
Proof.
  unfold parseRawCSV. cbn [Parsed.headers]. rewrite scanLoop_headerLine.
  set (st := Scan.mk [exportHeaders] [] EmptyString false).
  destruct (scanLoop_result_grows more false st) as [m1 H1].
  destruct (flush_result_grows (scanLoop more false st)) as [m2 H2].
  rewrite H2, H1. reflexivity.
Qed.

(** C9, as the code has it.  For every profile list whose records all carry
    a name, the export is a text whose lines are joined by line feeds: the
    first is the header line of the ten column names joined by commas (it is
    the whole text or is followed by a line feed, and the tokenizer reads the
    ten names back from it), and each record gives one line, the comma-joined
    list of its ten values, each between double quotes with its own double
    quotes doubled. *)
Theorem exportToCSV_format (profiles : list Profile.t) :
  Forall (fun p => is_Some (Profile.name p)) profiles ->
  exists lines text,
    exportToCSV profiles = Some text /\
    text = JS.join (headerLine :: lines) (String JS.LF EmptyString) /\
    (exists rest, text = headerLine +:+ rest /\ (rest = EmptyString \/ exists more, rest = String JS.LF more)) /\
    Parsed.headers (parseRawCSV text) = exportHeaders /\
    Forall2 (fun p line =>
               exists name cells,
                 Profile.name p = Some name /\
                 line = JS.join cells "," /\
                 Forall2 Enclosed (exportValues name p) cells)
            profiles lines.
Proof.
  intros Hnames.
  destruct (mapM_exportRow_format profiles Hnames) as (lines & Hlines & Hall).
  exists lines, (JS.join (headerLine :: lines) (String JS.LF EmptyString)).
  split; [|split; [reflexivity|split; [apply join_lines_first|split; [|exact Hall]]]].
  - unfold exportToCSV. rewrite Hlines. reflexivity.
  - destruct (join_lines_first headerLine lines) as (rest & -> & [->|[more ->]]).
    + rewrite append_empty_r. vm_compute. reflexivity.
    + apply parseRawCSV_headerLine.
Qed.

(** Counterexample to C9 as stated: a record without a name, such as the
    finalizer returns when no column is mapped to the name.  Reading the name
    raises and there is no text. *)
Lemma exportToCSV_nameless :
  Profile.name (Scenario.blank "profile-0-1" None) = None /\
  exportToCSV [Scenario.ada; Scenario.blank "profile-0-1" None] = None /\
  exportToCSV (finalizeProfiles Scenario.clock
                 (detectMappings Scenario.attendeeHeaders Scenario.attendeeRows)
                 Scenario.attendeeRows) = None.
Proof. vm_compute. repeat split. Qed.

Lemma exportToCSV_format_witness :
  Forall (fun p => is_Some (Profile.name p)) [Scenario.ada; Scenario.bob] /\
  exists lines text,
    exportToCSV [Scenario.ada; Scenario.bob] = Some text /\
    text = JS.join (headerLine :: lines) (String JS.LF EmptyString) /\
    (exists rest, text = headerLine +:+ rest /\ (rest = EmptyString \/ exists more, rest = String JS.LF more)) /\
    Parsed.headers (parseRawCSV text) = exportHeaders /\
    Forall2 (fun p line =>
               exists name cells,
                 Profile.name p = Some name /\
                 line = JS.join cells "," /\
                 Forall2 Enclosed (exportValues name p) cells)
            [Scenario.ada; Scenario.bob] lines.
Proof.
  assert (Hnames : Forall (fun p => is_Some (Profile.name p)) [Scenario.ada; Scenario.bob])
    by (repeat constructor; by eexists).
  split; [exact Hnames|].
  exact (exportToCSV_format [Scenario.ada; Scenario.bob] Hnames).
Defined.

(** ** The tabular restore *)

Section RestoreProperties.

Variable Date_now : nat -> N.

Lemma restoreRow_metadata h i row p :
  restoreRow Date_now h i row = Some p ->
  Profile.enrichment_status p = success /\
  Profile.enrichment_source p = gemini_web /\
  Profile.id p = restoredId Date_now i.
Proof.
  unfold restoreRow. intros H.
  repeat match type of H with
         | context [unquotedCell ?idx ?d row] => destruct (unquotedCell idx d row); simpl in H
         end; try discriminate.
  injection H as <-. repeat split.
Qed.

Lemma restoreRows_metadata h rows : forall i ps,
  restoreRows Date_now h i rows = Some ps ->
  length ps = length rows /\
  forall k p, ps !! k = Some p ->
    Profile.enrichment_status p = success /\
    Profile.enrichment_source p = gemini_web /\
    Profile.id p = restoredId Date_now (i + k).
Proof.
  induction rows as [|row rows IH]; intros i ps H; simpl in H.
  - injection H as <-. split; [reflexivity|]. intros k p Hk. by rewrite lookup_nil in Hk.
  - destruct (restoreRow Date_now h i row) as [p0|] eqn:Hrow; simpl in H; [|discriminate].
    destruct (restoreRows Date_now h (S i) rows) as [ps0|] eqn:Hrows; simpl in H; [|discriminate].
    injection H as <-. destruct (IH _ _ Hrows) as [Hlen Hall].
    split; [simpl; by rewrite Hlen|].
    intros [|k] p Hk; simpl in Hk.
    + injection Hk as <-. rewrite Nat.add_0_r. by apply restoreRow_metadata with h row.
    + replace (i + S k) with (S i + k) by lia. by apply Hall.
Qed.

(** C10.  Whatever the header row and the rows, every profile the restore
    returns has status success and source gemini_web, and its id is made of
    the word restored, the index of its row and the time of the restore:
    nothing of the status, source or id a record had when it was exported is
    read back.  There is one profile per row. *)
Theorem parseEnrichedCSV_resets_metadata (headers : list string) (rows : list (list string)) (profiles : list Profile.t) :
  parseEnrichedCSV Date_now headers rows = Some profiles ->
  length profiles = length rows /\
  forall i p, profiles !! i = Some p ->
    Profile.enrichment_status p = success /\
    Profile.enrichment_source p = gemini_web /\
    Profile.id p = "restored-" +:+ JS.numberToString (N.of_nat i) +:+ "-" +:+ JS.numberToString (Date_now i).
Proof.
  unfold parseEnrichedCSV. intros H.
  destruct (restoreRows_metadata _ _ _ _ H) as [Hlen Hall]. split; [exact Hlen|].
  intros i p Hp. apply (Hall i p Hp).
Qed.

Lemma indexOf_lt l x k : JS.indexOf l x = Some k -> k < length l.
Proof.
  revert k. induction l as [|y l IH]; intros k H; simpl in H; [discriminate|].
  destruct (String.eqb y x).
  - injection H as <-. simpl. lia.
  - destruct (JS.indexOf l x) as [j|]; simpl in H; [|discriminate].
    injection H as <-. simpl. specialize (IH j eq_refl). lia.
Qed.

Lemma unquotedCell_is_Some h x d row :
  length h <= length row -> is_Some (unquotedCell (JS.indexOf h x) d row).
Proof.
  intros Hlen. unfold unquotedCell, cell.
  destruct (JS.indexOf h x) as [k|] eqn:Hk; [|by eexists].
  apply indexOf_lt in Hk.
  destruct (lookup_lt_is_Some_2 row k) as [v Hv]; [lia|]. rewrite Hv. by eexists.
Qed.

(** The restore returns when no row is shorter than the header row; a
    shorter row may make it raise. *)
Lemma parseEnrichedCSV_total headers rows :
  Forall (fun row => length headers <= length row) rows ->
  is_Some (parseEnrichedCSV Date_now headers rows).
Proof.
  unfold parseEnrichedCSV.
  set (h := List.map normalizeHeader headers).
  assert (Hh : length h = length headers) by apply length_map.
  rewrite <- Hh. clear Hh. generalize 0 as i.
  induction rows as [|row rows IH]; intros i Hall; simpl; [by eexists|].
  inversion Hall as [|? ? Hrow Hrest]; subst.
  destruct (IH (S i) Hrest) as [ps Hps]. rewrite Hps.
  unfold restoreRow.
  repeat match goal with
         | |- context [unquotedCell (JS.indexOf h ?x) ?d row] =>
             let v := fresh "v" in
             let Hv := fresh "Hv" in
             destruct (unquotedCell_is_Some h x d row Hrow) as [v Hv]; rewrite Hv; simpl
         end.
  by eexists.
Qed.

End RestoreProperties.

Lemma parseEnrichedCSV_resets_metadata_witness :
  let exported := default EmptyString (exportToCSV [Scenario.failed]) in
  let parsed := parseRawCSV exported in
  exists profiles,
    parseEnrichedCSV Scenario.clock (Parsed.headers parsed) (Parsed.rows parsed) = Some profiles /\
    length profiles = 1 /\
    forall i p, profiles !! i = Some p ->
      Profile.enrichment_status p = success /\
      Profile.enrichment_source p = gemini_web /\
      Profile.id p = "restored-" +:+ JS.numberToString (N.of_nat i) +:+ "-" +:+ JS.numberToString (Scenario.clock i).
Proof.
  eexists. split; [vm_compute; reflexivity|].
  eapply (parseEnrichedCSV_resets_metadata Scenario.clock
            (Parsed.headers (parseRawCSV (default EmptyString (exportToCSV [Scenario.failed]))))
            (Parsed.rows (parseRawCSV (default EmptyString (exportToCSV [Scenario.failed]))))).
  vm_compute. reflexivity.
Defined.

(** A record exported with status error, source none and an id of its own
    comes back with status success, source gemini_web and a new id. *)
Example roundtrip_loses_metadata :
  let exported := default EmptyString (exportToCSV [Scenario.failed]) in
  let parsed := parseRawCSV exported in
  (Profile.id Scenario.failed, Profile.enrichment_status Scenario.failed, Profile.enrichment_source Scenario.failed)
  = ("profile-7-1", error, none) /\
  List.map (fun p => (Profile.id p, Profile.enrichment_status p, Profile.enrichment_source p, Profile.title p))
    (default [] (parseEnrichedCSV Scenario.clock (Parsed.headers parsed) (Parsed.rows parsed)))
  = [("restored-0-1700000000000", success, gemini_web, Some "Analyst")].
Proof. vm_compute. split; reflexivity. Qed.

(** ** Stable sorting *)

Section StableSort.

Context {A : Type}.
Variable key : A -> Z.


Lemma sortInsert_Permutation (comparefn : A -> A -> Z) x l :
  Permutation (JS.sortInsert comparefn x l) (x :: l).
Proof.
  induction l as [|y l IH]; simpl; [reflexivity|].
  destruct (comparefn x y <=? 0)%Z; [reflexivity|].
  rewrite IH. apply perm_swap.
Qed.

Lemma sort_Permutation (comparefn : A -> A -> Z) l :
  Permutation (JS.sort comparefn l) l.
Proof.
  induction l as [|x l IH]; simpl; [reflexivity|].
  unfold JS.sort in *. simpl. rewrite sortInsert_Permutation. by constructor.
Qed.





End StableSort.

(** ** The search *)






Section SearchProperties.

Context {oracle : Oracle}.


End SearchProperties.



(** ** The ranked search *)

Lemma newMap_lookup_from hits : forall (m : gmap string Recommendation.t) k,
  foldl (fun m e => <[e.1 := e.2]> m) m (List.map (fun r => (Recommendation.id r, r)) hits) !! k
  = match hitFor hits k with
    | Some r => Some r
    | None => m !! k
    end.
Proof.
  unfold hitFor. induction hits as [|h hits IH]; intros m k; [reflexivity|].
  cbn [List.map foldl List.filter fst snd]. rewrite IH.
  destruct (String.eqb_spec (Recommendation.id h) k) as [Hk|Hk].
  - rewrite last_cons. destruct (last _); [reflexivity|].
    subst k. by rewrite lookup_insert_eq.
  - destruct (last _); [reflexivity|]. by rewrite lookup_insert_ne.
Qed.

(** The map built from the hits answers with the last hit of each id. *)
Lemma newMap_lookup hits k :
  JS.newMap (List.map (fun r => (Recommendation.id r, r)) hits) !! k = hitFor hits k.
Proof.
  unfold JS.newMap. rewrite newMap_lookup_from, lookup_empty. by destruct (hitFor hits k).
Qed.


Lemma hitFor_is_Some hits p : hasHit hits p = true <-> is_Some (hitFor hits (Profile.id p)).
Proof.
  unfold hasHit, hitFor. rewrite last_is_Some, existsb_exists. split.
  - intros (h & Hin & Hid) Hnil.
    assert (Hh : In h (List.filter (fun r => String.eqb (Recommendation.id r) (Profile.id p)) hits))
      by (apply filter_In; auto).
    rewrite Hnil in Hh. destruct Hh.
  - intros Hne. destruct (List.filter _ hits) as [|h l] eqn:Hf; [done|].
    exists h.
    apply (proj1 (filter_In (fun r => String.eqb (Recommendation.id r) (Profile.id p)) h hits)).
    rewrite Hf. by left.
Qed.

Lemma has_newMap hits p :
  JS.has (JS.newMap (List.map (fun r => (Recommendation.id r, r)) hits)) (Profile.id p) = hasHit hits p.
Proof.
  unfold JS.has. rewrite newMap_lookup.
  destruct (hasHit hits p) eqn:Hhit.
  - apply bool_decide_eq_true. by apply hitFor_is_Some.
  - apply bool_decide_eq_false. intros H. apply hitFor_is_Some in H. congruence.
Qed.

(** The ranked branch, in the vocabulary of the specification *)
Lemma rankedMatches_sort hits filtered :
  rankedMatches hits filtered
  = JS.sort (descendingBy scoreOrZero) (List.map (withHit hits) (List.filter (hasHit hits) filtered)).
Proof.
  unfold rankedMatches. change byScoreDescending with (descendingBy scoreOrZero). f_equal.
  induction filtered as [|p filtered IH]; [reflexivity|].
  cbn [List.filter]. rewrite has_newMap.
  destruct (hasHit hits p); [|exact IH].
  cbn [List.map]. rewrite IH. f_equal.
  unfold attachMatch, withHit. by rewrite newMap_lookup.
Qed.

Section RankedSearchProperties.

Context {oracle : Oracle}.


End RankedSearchProperties.


(** ** Further scenarios of the specification *)

(** A bracketed annotation and a registration suffix are stripped. *)
Example cleanLumaGarbage_registration :
  cleanLumaGarbage (Some "Bob [VIP] has registered for Summit") = "Bob".
Proof. vm_compute. reflexivity. Qed.

(** A placeholder cell is cleaned to the empty string, in any case. *)
Example cleanLumaGarbage_placeholder :
  List.map (fun v => cleanLumaGarbage (Some v)) ["N/A"; " none "; "#n/a | x"; "."] = [""; ""; ""; ""].
Proof. vm_compute. reflexivity. Qed.

(** The empty text has no headers and no rows. *)
Example parseRawCSV_empty : parseRawCSV EmptyString = Parsed.mk [] [].
Proof. reflexivity. Qed.

(** The sentinel region excludes no record. *)
Example regionFilter_all profiles : regionFilter allRegions profiles = profiles.
Proof. reflexivity. Qed.

(** An empty query returns the region-filtered records as they are. *)
Example handleAgentSearch_empty_query `{Oracle} selectedRegion profiles :
  handleAgentSearch "   " selectedRegion profiles = regionFilter selectedRegion profiles.
Proof. reflexivity. Qed.

(** A short query never consults the ranking. *)
Example handleAgentSearch_short_query `{Oracle} profiles :
  handleAgentSearch "Rust" allRegions profiles = substringFilter "rust" profiles.
Proof. reflexivity. Qed.

(** The finalizer on a complete mapping: the name is cleaned, an empty name
    gets the placeholder label, and the URL is cut out of its cell. *)
Example finalizeProfiles_scenario :
  let mappings :=
    detectMappings ["Full Name"; "Job Title"; "LinkedIn profile"]
      [["Bob [VIP]"; "CEO | Acme"; "see https://linkedin.com/in/bob now"]] in
  List.map (fun p => (Profile.name p, Profile.title p, Profile.linkedin_url p, Profile.enrichment_status p))
    (finalizeProfiles Scenario.clock mappings
       [["Bob [VIP]"; "CEO | Acme"; "see https://linkedin.com/in/bob now"]; ["n/a"; "CTO"]])
  = [(Some "Bob", Some "CEO", Some "https://linkedin.com/in/bob", pending);
     (Some "Unknown Attendee", Some "CTO", None, pending)].
Proof. vm_compute. reflexivity. Qed.

(** * Further properties of the code *)

(** ** Trimming *)

Lemma trimStart_noLeadingSpace s : noLeadingSpace (JS.trimStart s).
Proof.
  induction s as [|c s IH]; simpl; [exact I|].
  destruct (JS.isWhiteSpace c) eqn:Hc; [exact IH|]. simpl. exact Hc.
Qed.

Lemma trimStart_fixed s : noLeadingSpace s -> JS.trimStart s = s.
Proof. destruct s as [|c s]; simpl; [reflexivity|]. by intros ->. Qed.

Lemma trimEnd_cons c s :
  JS.trimEnd (String c s)
  = match JS.trimEnd s with
    | EmptyString => if JS.isWhiteSpace c then EmptyString else String c EmptyString
    | r => String c r
    end.
Proof. reflexivity. Qed.

Lemma trimEnd_idempotent s : JS.trimEnd (JS.trimEnd s) = JS.trimEnd s.
Proof.
  induction s as [|c s IH]; [reflexivity|].
  rewrite trimEnd_cons. destruct (JS.trimEnd s) as [|d r] eqn:Hr.
  - destruct (JS.isWhiteSpace c) eqn:Hc; [reflexivity|].
    rewrite trimEnd_cons. simpl JS.trimEnd. by rewrite Hc.
  - rewrite trimEnd_cons, IH. reflexivity.
Qed.

Lemma trimEnd_noLeadingSpace s : noLeadingSpace s -> noLeadingSpace (JS.trimEnd s).
Proof.
  destruct s as [|c s]; [done|]. simpl noLeadingSpace at 1. intros Hc.
  rewrite trimEnd_cons. destruct (JS.trimEnd s); [by rewrite Hc|exact Hc].
Qed.

(** Trimming a trimmed string changes nothing. *)
Lemma trim_idempotent s : JS.trim (JS.trim s) = JS.trim s.
Proof.
  unfold JS.trim.
  rewrite (trimStart_fixed (JS.trimEnd (JS.trimStart s))).
  - apply trimEnd_idempotent.
  - apply trimEnd_noLeadingSpace, trimStart_noLeadingSpace.
Qed.

Lemma allChars_trimStart f s : allChars f s = true -> allChars f (JS.trimStart s) = true.
Proof.
  induction s as [|c s IH]; simpl; [done|].
  intros [Hc Hs]%andb_prop. destruct (JS.isWhiteSpace c); [auto|]. simpl. by rewrite Hc, Hs.
Qed.

Lemma allChars_trimEnd f s : allChars f s = true -> allChars f (JS.trimEnd s) = true.
Proof.
  induction s as [|c s IH]; [done|]. cbn [allChars].
  intros [Hc Hs]%andb_prop. rewrite trimEnd_cons. specialize (IH Hs).
  destruct (JS.trimEnd s) as [|d r].
  - destruct (JS.isWhiteSpace c); [reflexivity|]. simpl. by rewrite Hc.
  - cbn [allChars] in *. by rewrite Hc, IH.
Qed.

Lemma allChars_trim f s : allChars f s = true -> allChars f (JS.trim s) = true.
Proof. intros H. by apply allChars_trimEnd, allChars_trimStart. Qed.

(** ** Invariants of the tokenizer *)

Lemma wellFormedRow_snoc row field :
  Forall trimmedCell row -> wellFormedRow (row ++ [JS.trim field]).
Proof.
  intros Hrow. split; [by destruct row|].
  apply Forall_app. split; [exact Hrow|]. constructor; [apply trim_idempotent|constructor].
Qed.

Lemma scanStep_invariant c next st :
  scanInvariant st -> scanInvariant (scanStep c next st).1.
Proof.
  intros [Hres Hrow]. unfold scanStep.
  repeat match goal with
         | |- context [if ?b then _ else _] => destruct b
         end; simpl; split; simpl; try assumption; try constructor;
    try (apply Forall_app; split; [assumption|constructor; [|constructor]]);
    try apply trim_idempotent; try (by apply wellFormedRow_snoc).
Qed.

Lemma scanLoop_invariant text : forall skip st,
  scanInvariant st -> scanInvariant (scanLoop text skip st).
Proof.
  induction text as [|c text IH]; intros skip st Hst; simpl; [exact Hst|].
  destruct skip; [by apply IH|].
  pose proof (scanStep_invariant c (peek text) st Hst) as Hstep.
  destruct (scanStep c (peek text) st) as [st' extra]. by apply IH.
Qed.

Lemma flush_invariant st : scanInvariant st -> Forall wellFormedRow (flush st).
Proof.
  intros [Hres Hrow]. unfold flush. destruct (_ || _); simpl; [|exact Hres].
  apply Forall_app. split; [exact Hres|]. constructor; [by apply wellFormedRow_snoc|constructor].
Qed.

(** X1.  Whatever the text, the tokenizer returns trimmed cells only, no data row
    is empty, and there are data rows only under a header row that has at
    least one cell. *)
Theorem parseRawCSV_well_formed (text : string) :
  Forall trimmedCell (Parsed.headers (parseRawCSV text)) /\
  Forall wellFormedRow (Parsed.rows (parseRawCSV text)) /\
  (Parsed.headers (parseRawCSV text) = [] -> Parsed.rows (parseRawCSV text) = []).
Proof.
  unfold parseRawCSV; simpl.
  assert (Hall : Forall wellFormedRow (flush (scanLoop text false Scan.init))).
  { apply flush_invariant, scanLoop_invariant. split; constructor. }
  destruct (flush (scanLoop text false Scan.init)) as [|r rs]; simpl.
  - repeat split; constructor.
  - inversion Hall as [|? ? [Hne Hr] Hrs]; subst. rewrite drop_0.
    split; [exact Hr|]. split; [exact Hrs|]. intros ->. done.
Qed.

(** ** Lines of cells, read by the tokenizer *)

Lemma scanLoop_comma text res row acc :
  scanLoop (String ","%char text) false (Scan.mk res row acc false)
  = scanLoop text false (Scan.mk res (row ++ [JS.trim acc]) EmptyString false).
Proof. by rewrite scanLoop_cons. Qed.

Lemma scanLoop_LF text res row acc :
  scanLoop (String JS.LF text) false (Scan.mk res row acc false)
  = scanLoop text false (Scan.mk (res ++ [row ++ [JS.trim acc]]) [] EmptyString false).
Proof. by rewrite scanLoop_cons. Qed.

Lemma join_cons_cons x y l sep :
  JS.join (x :: y :: l) sep = x +:+ sep +:+ JS.join (y :: l) sep.
Proof. reflexivity. Qed.

Lemma map_removelast_last (vs : list string) :
  vs <> [] ->
  List.map JS.trim (removelast vs) ++ [JS.trim (List.last vs EmptyString)] = List.map JS.trim vs.
Proof.
  intros Hne. rewrite (app_removelast_last EmptyString Hne) at 3.
  by rewrite List.map_app.
Qed.

Lemma flush_cells res vs :
  endsText vs ->
  flush (Scan.mk res (List.map JS.trim (removelast vs)) (List.last vs EmptyString) false)
  = res ++ [List.map JS.trim vs].
Proof.
  intros Hvs. unfold flush. cbn [Scan.row Scan.currField Scan.result endRow].
  assert (Hflush : negb (Nat.eqb (length (List.map JS.trim (removelast vs))) 0)
                   || negb (String.eqb (List.last vs EmptyString) EmptyString) = true).
  { destruct Hvs as [Hlen|(v & -> & Hv)].
    - destruct vs as [|v [|v2 vs]]; simpl in Hlen; try lia. reflexivity.
    - cbn. by destruct (String.eqb_spec v EmptyString). }
  rewrite Hflush. rewrite map_removelast_last; [reflexivity|].
  destruct Hvs as [Hlen|(v & -> & _)]; [destruct vs; simpl in Hlen; [lia|done]|done].
Qed.

Section CellLines.

(** How a cell is written, and the cells that can be written so: the
    tokenizer reads the written cell back into its field, provided that no
    quote follows. *)
Variable enc : string -> string.
Variable ok : string -> Prop.
Hypothesis enc_read : forall v, ok v -> forall rest res row acc,
  isChar JS.dquote (peek rest) = false ->
  scanLoop (enc v +:+ rest) false (Scan.mk res row acc false)
  = scanLoop rest false (Scan.mk res row (acc +:+ v) false).

Lemma scanLoop_cells vs : forall v res row rest,
  Forall ok (v :: vs) ->
  isChar JS.dquote (peek rest) = false ->
  scanLoop (JS.join (List.map enc (v :: vs)) "," +:+ rest) false (Scan.mk res row EmptyString false)
  = scanLoop rest false
      (Scan.mk res (row ++ List.map JS.trim (removelast (v :: vs))) (List.last (v :: vs) EmptyString) false).
Proof.
  induction vs as [|v' vs IH]; intros v res row rest Hok Hrest;
    inversion Hok as [|? ? Hv Hvs]; subst.
  - cbn [List.map removelast List.last]. unfold JS.join; cbn [String.concat].
    rewrite (enc_read v Hv) by exact Hrest. by rewrite app_nil_r.
  - cbn [List.map]. rewrite join_cons_cons, !append_assoc.
    rewrite (enc_read v Hv) by reflexivity.
    change ("," +:+ ?t) with (String ","%char t). rewrite scanLoop_comma.
    change (enc v' :: List.map enc vs) with (List.map enc (v' :: vs)).
    rewrite (IH v' _ _ _ Hvs Hrest).
    change (removelast (v :: v' :: vs)) with (v :: removelast (v' :: vs)).
    change (List.last (v :: v' :: vs) EmptyString) with (List.last (v' :: vs) EmptyString).
    cbn [List.map]. by rewrite <- app_assoc.
Qed.

(** The lines of a text, read from a state that has finished [res]: each
    line gives the row of its trimmed cells. *)
Lemma flush_scanLoop_lines rows : forall res,
  Forall (fun vs => vs <> [] /\ Forall ok vs) rows ->
  endsText (List.last rows [EmptyString; EmptyString]) ->
  flush (scanLoop (JS.join (List.map (fun vs => JS.join (List.map enc vs) ",") rows)
                     (String JS.LF EmptyString)) false
           (Scan.mk res [] EmptyString false))
  = res ++ List.map (List.map JS.trim) rows.
Proof.
  induction rows as [|vs rows IH]; intros res Hrows Hlast.
  - simpl. unfold flush; simpl. by rewrite app_nil_r.
  - inversion Hrows as [|? ? [Hne Hvs] Hrest]; subst.
    destruct vs as [|v vs]; [done|].
    destruct rows as [|vs' rows].
    + assert (Htext : JS.join (List.map (fun vs => JS.join (List.map enc vs) ",") [v :: vs])
                        (String JS.LF EmptyString)
                      = JS.join (List.map enc (v :: vs)) "," +:+ EmptyString)
        by (by rewrite append_empty_r).
      rewrite Htext, (scanLoop_cells vs v _ _ _ Hvs) by reflexivity. cbn [scanLoop app].
      by apply flush_cells.
    + assert (Htext : JS.join (List.map (fun vs => JS.join (List.map enc vs) ",") ((v :: vs) :: vs' :: rows))
                        (String JS.LF EmptyString)
                      = JS.join (List.map enc (v :: vs)) ","
                        +:+ String JS.LF
                              (JS.join (List.map (fun vs => JS.join (List.map enc vs) ",") (vs' :: rows))
                                 (String JS.LF EmptyString)))
        by reflexivity.
      rewrite Htext, (scanLoop_cells vs v _ _ _ Hvs) by reflexivity. rewrite scanLoop_LF.
      cbn [app]. rewrite map_removelast_last by done.
      rewrite (IH _ Hrest) by exact Hlast.
      rewrite <- app_assoc. reflexivity.
Qed.

End CellLines.

(** ** Plain text *)

Lemma scanLoop_plain s : plainCell s -> forall rest res row acc,
  isChar JS.dquote (peek rest) = false ->
  scanLoop (s +:+ rest) false (Scan.mk res row acc false)
  = scanLoop rest false (Scan.mk res row (acc +:+ s) false).
Proof.
  unfold plainCell. induction s as [|c s IH]; intros Hs rest res row acc Hrest.
  - change (EmptyString +:+ rest) with rest. by rewrite append_empty_r.
  - cbn [allChars] in Hs. apply andb_prop in Hs as [Hc Hs].
    unfold isSpecial in Hc. apply negb_true_iff in Hc.
    apply orb_false_elim in Hc as [Hc Hcr]. apply orb_false_elim in Hc as [Hc Hlf].
    apply orb_false_elim in Hc as [Hdq Hcomma].
    rewrite append_cons, scanLoop_cons. unfold scanStep. cbn [Scan.inQuotes].
    rewrite Hdq, Hcomma, Hlf, Hcr. cbn [andb orb fst snd]. unfold pushChar.
    cbn [Scan.result Scan.row Scan.currField Scan.inQuotes].
    rewrite (IH Hs) by exact Hrest. by rewrite append_snoc.
Qed.

(** X2.  A text of lines of plain cells, the cells joined by commas and the lines
    by line feeds, is read back as its rows: the first as the header row,
    the others as the data rows, ragged or not, each cell trimmed.  The
    cells hold no quote, comma or line break; every row has a cell; and the
    last line is not a single empty cell, which the tokenizer drops. *)
Theorem parseRawCSV_plain_lines (header : list string) (rows : list (list string)) :
  Forall (fun vs => vs <> [] /\ Forall plainCell vs) (header :: rows) ->
  endsText (List.last (header :: rows) [EmptyString; EmptyString]) ->
  parseRawCSV (JS.join (List.map (fun vs => JS.join vs ",") (header :: rows)) (String JS.LF EmptyString))
  = Parsed.mk (List.map JS.trim header) (List.map (List.map JS.trim) rows).
Proof.
  intros Hrows Hlast. unfold parseRawCSV.
  pose proof (flush_scanLoop_lines (fun v => v) plainCell scanLoop_plain (header :: rows) [] Hrows Hlast)
    as Hflush.
  assert (Hid : List.map (fun vs : list string => JS.join (List.map (fun v => v) vs) ",") (header :: rows)
                = List.map (fun vs => JS.join vs ",") (header :: rows)).
  { apply map_ext. intros vs. by rewrite List.map_id. }
  rewrite Hid in Hflush. unfold Scan.init. rewrite Hflush. reflexivity.
Qed.

(** ** Export, then tokenize *)

Lemma exportRow_exported p :
  is_Some (Profile.name p) -> exportRow p = Some (cellsLine (exportedValues p)).
Proof. intros [name Hname]. unfold exportRow, exportedValues. by rewrite Hname. Qed.

Lemma exportToCSV_named profiles :
  Forall (fun p => is_Some (Profile.name p)) profiles ->
  exportToCSV profiles
  = Some (JS.join (headerLine :: List.map cellsLine (List.map exportedValues profiles))
            (String JS.LF EmptyString)).
Proof.
  intros Hnames. unfold exportToCSV.
  assert (Hrows : mapM exportRow profiles = Some (List.map cellsLine (List.map exportedValues profiles))).
  { induction Hnames as [|p profiles Hname _ IH]; [reflexivity|].
    cbn [mapM]. rewrite (exportRow_exported p Hname), IH. reflexivity. }
  by rewrite Hrows.
Qed.

Lemma exportedValues_length p : length (exportedValues p) = 10.
Proof. reflexivity. Qed.

Lemma scanLoop_quoted_any v : True -> forall rest res row acc,
  isChar JS.dquote (peek rest) = false ->
  scanLoop (quoted v +:+ rest) false (Scan.mk res row acc false)
  = scanLoop rest false (Scan.mk res row (acc +:+ v) false).
Proof. intros _ rest res row acc. apply scanLoop_quoted. Qed.

(** The text of an export, read by the tokenizer *)
Lemma parseRawCSV_exported profiles :
  parseRawCSV (JS.join (headerLine :: List.map cellsLine (List.map exportedValues profiles))
                 (String JS.LF EmptyString))
  = Parsed.mk exportHeaders (List.map (fun p => List.map JS.trim (exportedValues p)) profiles).
Proof.
  destruct profiles as [|p profiles].
  - vm_compute. reflexivity.
  - set (rows := List.map exportedValues (p :: profiles)) in *.
    assert (Hrows : Forall (fun vs => vs <> [] /\ Forall (fun _ : string => True) vs) rows).
    { apply Forall_forall. intros vs [q [-> _]]%list_elem_of_fmap.
      split; [done|]. by apply Forall_forall. }
    assert (Hlast : endsText (List.last rows [EmptyString; EmptyString])).
    { left. assert (Hall : Forall (fun vs : list string => 2 <= length vs) rows).
      { apply Forall_forall. intros vs [q [-> _]]%list_elem_of_fmap. rewrite exportedValues_length. lia. }
      clearbody rows. clear -Hall. induction Hall as [|vs rows Hvs Hall IH]; [simpl; lia|].
      destruct rows; [exact Hvs|exact IH]. }
    assert (Htext : JS.join (headerLine :: List.map cellsLine rows) (String JS.LF EmptyString)
                    = headerLine +:+ String JS.LF (JS.join (List.map cellsLine rows) (String JS.LF EmptyString))).
    { unfold rows. reflexivity. }
    rewrite Htext. unfold parseRawCSV. rewrite scanLoop_headerLine.
    unfold cellsLine.
    rewrite (flush_scanLoop_lines quoted (fun _ => True) scanLoop_quoted_any rows _ Hrows Hlast).
    unfold rows. cbn [app lookup]. rewrite List.map_map. reflexivity.
Qed.

(** X4.  Round trip through the text.  For profiles that all carry a name, the
    tokenizer reads the exported text back as the header row of the ten
    column names and one row per profile: its ten exported values, each
    trimmed of surrounding white space.  Commas, quotes and line breaks
    inside a value come back as they were. *)
Theorem parseRawCSV_exportToCSV (profiles : list Profile.t) :
  Forall (fun p => is_Some (Profile.name p)) profiles ->
  exists text,
    exportToCSV profiles = Some text /\
    parseRawCSV text
    = Parsed.mk exportHeaders (List.map (fun p => List.map JS.trim (exportedValues p)) profiles).
Proof.
  intros Hnames. eexists. split; [by apply exportToCSV_named|]. apply parseRawCSV_exported.
Qed.

(** ** Export, then restore *)

Section RestoreExport.

Variable Date_now : nat -> N.




End RestoreExport.

(** ** Skills through the tabular format *)

Lemma trim_fixed_parts s : JS.trim s = s -> noLeadingSpace s /\ JS.trimEnd s = s.
Proof.
  intros Hs. assert (Hlead : noLeadingSpace s).
  { rewrite <- Hs. apply trimEnd_noLeadingSpace, trimStart_noLeadingSpace. }
  split; [exact Hlead|]. unfold JS.trim in Hs. by rewrite (trimStart_fixed s Hlead) in Hs.
Qed.

Lemma trimEnd_append a b :
  JS.trimEnd b <> EmptyString -> JS.trimEnd (a +:+ b) = a +:+ JS.trimEnd b.
Proof.
  intros Hb. induction a as [|c a IH]; [reflexivity|].
  rewrite !append_cons, trimEnd_cons, IH.
  destruct (a +:+ JS.trimEnd b) as [|d r] eqn:Hr; [|reflexivity].
  destruct a; [change (EmptyString +:+ JS.trimEnd b) with (JS.trimEnd b) in Hr; congruence|].
  rewrite append_cons in Hr. discriminate.
Qed.

Lemma join_plain_not_empty s l : s <> EmptyString -> JS.join (s :: l) ", " <> EmptyString.
Proof.
  intros Hs. destruct l as [|s' l]; [exact Hs|].
  rewrite join_cons_cons. destruct s; [done|]. by rewrite append_cons.
Qed.

Lemma trimEnd_join_plain l : Forall plainSkill l -> JS.trimEnd (JS.join l ", ") = JS.join l ", ".
Proof.
  induction 1 as [|s l (Hne & Htrim & _ & _) Hl IH]; [reflexivity|].
  destruct l as [|s' l]; [by apply trim_fixed_parts|].
  rewrite join_cons_cons.
  assert (Hrest : JS.trimEnd (JS.join (s' :: l) ", ") <> EmptyString).
  { rewrite IH. apply join_plain_not_empty. inversion Hl as [|? ? (Hne' & _) _]. exact Hne'. }
  assert (Hsep : JS.trimEnd (", " +:+ JS.join (s' :: l) ", ") = ", " +:+ JS.join (s' :: l) ", ").
  { rewrite trimEnd_append by exact Hrest. by rewrite IH. }
  rewrite trimEnd_append; rewrite Hsep; [reflexivity|].
  change (", " +:+ ?t) with (String ","%char (String " "%char t)). discriminate.
Qed.

Lemma trim_join_plain l : Forall plainSkill l -> JS.trim (JS.join l ", ") = JS.join l ", ".
Proof.
  intros Hl. unfold JS.trim. rewrite trimStart_fixed; [by apply trimEnd_join_plain|].
  destruct Hl as [|s l (Hne & Htrim & _ & _) Hl]; [exact I|].
  destruct (trim_fixed_parts s Htrim) as [Hlead _].
  destruct l as [|s' l]; [exact Hlead|]. rewrite join_cons_cons.
  destruct s; [done|]. rewrite append_cons. exact Hlead.
Qed.

Lemma split_no_comma s :
  allChars (fun c => negb (Ascii.eqb c ","%char)) s = true -> JS.split ","%char s = [s].
Proof.
  induction s as [|c s IH]; [reflexivity|]. cbn [allChars JS.split].
  intros [Hc Hs]%andb_prop. apply negb_true_iff in Hc. rewrite Hc, (IH Hs). reflexivity.
Qed.

Lemma split_append_comma s t :
  allChars (fun c => negb (Ascii.eqb c ","%char)) s = true ->
  JS.split ","%char (s +:+ String ","%char t) = s :: JS.split ","%char t.
Proof.
  induction s as [|c s IH]; [reflexivity|]. cbn [allChars].
  intros [Hc Hs]%andb_prop. apply negb_true_iff in Hc.
  rewrite append_cons. cbn [JS.split]. rewrite Hc, (IH Hs). reflexivity.
Qed.

Lemma split_join_plain s l :
  Forall plainSkill (s :: l) ->
  JS.split ","%char (JS.join (s :: l) ", ") = s :: List.map (fun x => String " "%char x) l.
Proof.
  revert s. induction l as [|s' l IH]; intros s Hall.
  - inversion Hall as [|? ? (_ & _ & Hcomma & _) _]; subst. by apply split_no_comma.
  - inversion Hall as [|? ? (_ & _ & Hcomma & _) Hrest]; subst.
    rewrite join_cons_cons.
    change (", " +:+ ?t) with (String ","%char (String " "%char t)).
    rewrite split_append_comma by exact Hcomma.
    cbn [List.map]. f_equal.
    cbn [JS.split]. change (Ascii.eqb " "%char ","%char) with false. cbv iota.
    by rewrite (IH s' Hrest).
Qed.

Lemma restoredCell_plain s : plainSkill s -> restoredCell s = s.
Proof. intros (_ & Htrim & _ & Hquote). unfold restoredCell. by rewrite Htrim. Qed.

Lemma restoredCell_space_plain s : plainSkill s -> restoredCell (String " "%char s) = s.
Proof.
  intros (Hne & Htrim & Hcomma & Hquote). unfold restoredCell.
  assert (Hsp : JS.trim (String " "%char s) = JS.trim s) by reflexivity.
  by rewrite Hsp, Htrim.
Qed.

(** X6.  Skills survive the tabular round trip when none of them is empty, has
    white space around it, holds a comma, or starts or ends with a double
    quote: joined with comma and space, trimmed by the tokenizer and split
    by the restore, they come back as the same list. *)
Theorem parseSkills_join_plain (skills : list string) (skillsIdx : nat) (row : list string) :
  Forall plainSkill skills ->
  row !! skillsIdx = Some (JS.trim (JS.join skills ", ")) ->
  parseSkills (Some skillsIdx) row = skills.
Proof.
  intros Hplain Hcell. unfold parseSkills, cell. rewrite Hcell, (trim_join_plain skills Hplain).
  destruct skills as [|s l]; [reflexivity|].
  assert (Hne : JS.join (s :: l) ", " <> EmptyString).
  { apply join_plain_not_empty. inversion Hplain as [|? ? (Hne & _) _]. exact Hne. }
  unfold JS.truthy. destruct (String.eqb_spec (JS.join (s :: l) ", ") EmptyString) as [|_]; [done|].
  cbn [negb JS.orEmpty default from_option]. unfold id. rewrite (split_join_plain s l Hplain).
  change (fun s0 => JS.stripOuterQuotes (JS.trim s0)) with restoredCell.
  inversion Hplain as [|? ? Hs Hl]; subst. cbn [List.map].
  rewrite (restoredCell_plain s Hs), List.map_map.
  assert (Hmap : List.map (fun x => restoredCell (String " "%char x)) l = l).
  { clear -Hl. induction Hl as [|x l Hx _ IH]; [reflexivity|].
    cbn [List.map]. by rewrite (restoredCell_space_plain x Hx), IH. }
  rewrite Hmap.
  assert (Hfilter : forall k, Forall plainSkill k ->
            List.filter (fun s0 => negb (String.eqb s0 EmptyString)) k = k).
  { intros k Hk. induction Hk as [|x k (Hx & _) _ IH]; [reflexivity|].
    cbn [List.filter]. destruct (String.eqb_spec x EmptyString) as [|_]; [done|].
    cbn [negb]. by rewrite IH. }
  by apply Hfilter.
Qed.

(** ** The finalizer, further *)

Section FinalizerContract.

Variable Date_now : nat -> N.

Lemma applyMapping_untouched row colIdx m profile :
  untouchedByFinalizer profile -> untouchedByFinalizer (applyMapping row colIdx m profile).
Proof. unfold applyMapping. by destruct (ColumnMapping.mappedTo m). Qed.

Lemma applyMapping_id row colIdx m profile :
  Profile.id (applyMapping row colIdx m profile) = Profile.id profile.
Proof. unfold applyMapping. by destruct (ColumnMapping.mappedTo m). Qed.

Lemma forEachMapping_untouched row mappings : forall colIdx profile,
  untouchedByFinalizer profile ->
  untouchedByFinalizer (forEachMapping row colIdx mappings profile) /\
  Profile.id (forEachMapping row colIdx mappings profile) = Profile.id profile.
Proof.
  induction mappings as [|m mappings IH]; intros colIdx profile Hp; [done|].
  cbn [forEachMapping].
  destruct (IH (S colIdx) _ (applyMapping_untouched row colIdx m profile Hp)) as [H1 H2].
  split; [exact H1|]. by rewrite H2, applyMapping_id.
Qed.

(** X11.  The finalizer returns one record per row, in order.  The record of row
    [i] has the id profile-i-time, is selected, pending and without source,
    and has no region, enrichment field, score or match reason, whatever the
    mappings and the cells. *)
Theorem finalizeProfiles_fresh (mappings : list ColumnMapping.t) (rows : list (list string)) :
  length (finalizeProfiles Date_now mappings rows) = length rows /\
  forall i p,
    finalizeProfiles Date_now mappings rows !! i = Some p ->
    Profile.id p
    = "profile-" +:+ JS.numberToString (N.of_nat i) +:+ "-" +:+ JS.numberToString (Date_now i) /\
    untouchedByFinalizer p.
Proof.
  split; [apply finalizeProfiles_length|]. intros i p Hp.
  unfold finalizeProfiles in Hp. rewrite list_lookup_imap in Hp.
  destruct (rows !! i) as [row|]; simpl in Hp; [|discriminate]. injection Hp as <-.
  destruct (forEachMapping_untouched row mappings 0 (newProfile Date_now i)) as [H1 H2].
  - unfold untouchedByFinalizer. repeat split.
  - split; [by rewrite H2|exact H1].
Qed.

Lemma forEachMapping_lastName row mappings : forall colIdx profile,
  Profile.name (forEachMapping row colIdx mappings profile)
  = match lastNameColumn colIdx mappings with
    | Some k => Some (nameFromCell (row !! k))
    | None => Profile.name profile
    end.
Proof.
  induction mappings as [|m mappings IH]; intros colIdx profile; [reflexivity|].
  cbn [forEachMapping lastNameColumn]. rewrite IH.
  destruct (lastNameColumn (S colIdx) mappings); [reflexivity|].
  unfold isNameMapping, applyMapping. by destruct (ColumnMapping.mappedTo m).
Qed.

(** X12.  When several columns are mapped to the name, the last of them gives
    it: the name of each record is the cleaned cell of that column, or the
    placeholder label when the cleaned cell is empty or the row has no such
    cell; with no column mapped to the name the record has no name. *)
Theorem finalizeProfiles_last_name_column (mappings : list ColumnMapping.t) (rows : list (list string)) :
  forall i row,
    rows !! i = Some row ->
    Profile.name <$> (finalizeProfiles Date_now mappings rows !! i)
    = Some (match lastNameColumn 0 mappings with
            | Some k => Some (nameFromCell (row !! k))
            | None => None
            end).
Proof.
  intros i row Hrow. unfold finalizeProfiles. rewrite list_lookup_imap, Hrow. simpl.
  by rewrite forEachMapping_lastName.
Qed.

End FinalizerContract.

(** ** Editing the mappings *)

(** X9.  Changing the field of column [idx] keeps the number of mappings, changes
    the field of that column only and nothing else of it, and does nothing
    when there is no such column. *)
Theorem updateMapping_lookup (idx : nat) (field : FieldType.t) (prev : list ColumnMapping.t) :
  length (updateMapping idx field prev) = length prev /\
  (forall m, prev !! idx = Some m ->
     updateMapping idx field prev !! idx
     = Some (ColumnMapping.mk (ColumnMapping.header m) field (ColumnMapping.preview m)
               (ColumnMapping.autoDetected m))) /\
  (forall i, i <> idx -> updateMapping idx field prev !! i = prev !! i) /\
  (length prev <= idx -> updateMapping idx field prev = prev).
Proof.
  unfold updateMapping. split; [apply length_imap|]. split; [|split].
  - intros m Hm. by rewrite list_lookup_imap, Hm, Nat.eqb_refl.
  - intros i Hi. rewrite list_lookup_imap. destruct (prev !! i) as [m|]; [|reflexivity].
    simpl. by destruct (Nat.eqb_spec i idx).
  - intros Hlen.
    assert (Hsame : imap (fun i m => if Nat.eqb i idx
                                     then ColumnMapping.mk (ColumnMapping.header m) field
                                            (ColumnMapping.preview m) (ColumnMapping.autoDetected m)
                                     else m) prev = prev).
    { apply list_eq. intros i. rewrite list_lookup_imap.
      destruct (prev !! i) as [m|] eqn:Hm; [|reflexivity]. simpl.
      apply lookup_lt_Some in Hm. destruct (Nat.eqb_spec i idx); [lia|reflexivity]. }
    exact Hsame.
Qed.

Lemma updateMapping_name_exists idx prev :
  idx < length prev -> existsb isNameMapping (updateMapping idx FieldType.name prev) = true.
Proof.
  intros Hidx. destruct (lookup_lt_is_Some_2 prev idx Hidx) as [m Hm].
  apply existsb_exists. eexists. split.
  - apply list_elem_of_In, list_elem_of_lookup. exists idx.
    unfold updateMapping. rewrite list_lookup_imap, Hm. simpl. rewrite Nat.eqb_refl. reflexivity.
  - reflexivity.
Qed.

(** X13.  Once any existing column is mapped to the name, every finalized record
    has a name that is not empty. *)
Theorem finalizeProfiles_after_name_mapping (Date_now : nat -> N) (idx : nat)
    (mappings : list ColumnMapping.t) (rows : list (list string)) :
  idx < length mappings ->
  Forall hasNonEmptyName
    (finalizeProfiles Date_now (updateMapping idx FieldType.name mappings) rows).
Proof. intros Hidx. by apply finalizeProfiles_name_nonempty, updateMapping_name_exists. Qed.

Lemma finalizeProfiles_after_name_mapping_witness :
  1 < length (detectMappings Scenario.attendeeHeaders Scenario.attendeeRows) /\
  Forall hasNonEmptyName
    (finalizeProfiles Scenario.clock
       (updateMapping 0 FieldType.name (detectMappings Scenario.attendeeHeaders Scenario.attendeeRows))
       Scenario.attendeeRows).
Proof.
  split; [vm_compute; lia|].
  apply (finalizeProfiles_after_name_mapping Scenario.clock 0). vm_compute. lia.
Defined.

(** ** Detecting the mappings *)

(** X8.  There is one mapping per header, in order and with the header kept.  A
    mapping is marked as detected exactly when it is not ignore; a header
    that contains name, in any case, is mapped to the name before any other
    rule is tried; the preview holds at most three cells, none empty. *)
Theorem detectMappings_contract (headers : list string) (rows : list (list string)) :
  List.map ColumnMapping.header (detectMappings headers rows) = headers /\
  Forall (fun m =>
            (ColumnMapping.autoDetected m = true <-> ColumnMapping.mappedTo m <> FieldType.ignore) /\
            (JS.includes (JS.toLowerCase (ColumnMapping.header m)) "name" = true ->
             ColumnMapping.mappedTo m = FieldType.name) /\
            length (ColumnMapping.preview m) <= 3 /\
            Forall (fun v => v <> EmptyString) (ColumnMapping.preview m))
         (detectMappings headers rows).
Proof.
  unfold detectMappings. split.
  - apply list_eq. intros i.
    change (List.map ColumnMapping.header ?l) with (ColumnMapping.header <$> l).
    rewrite list_lookup_fmap, list_lookup_imap.
    destruct (headers !! i) as [h|]; [|reflexivity]. simpl.
    by destruct (detectField (JS.toLowerCase h)).
  - apply Forall_lookup. intros i m Hm. rewrite list_lookup_imap in Hm.
    destruct (headers !! i) as [h|]; simpl in Hm; [|discriminate].
    destruct (detectField (JS.toLowerCase h)) as [mappedTo autoDetected] eqn:Hfield.
    injection Hm as <-. cbn [ColumnMapping.autoDetected ColumnMapping.mappedTo
                              ColumnMapping.header ColumnMapping.preview].
    split; [|split; [|split]].
    + unfold detectField in Hfield.
      repeat match type of Hfield with
             | (if ?b then _ else _) = _ => destruct b
             end; injection Hfield as <- <-; split; try done; try discriminate.
    + intros Hname. unfold detectField in Hfield. rewrite Hname in Hfield. by injection Hfield as <- _.
    + etransitivity; [apply List.filter_length_le|]. rewrite length_map, length_take. lia.
    + apply Forall_forall. intros v [_ Hv]%list_elem_of_In%filter_In.
      intros ->. discriminate.
Qed.

(** ** Cleaning a cell *)

Lemma allChars_firstLine f s : allChars f s = true -> allChars f (JS.firstLine s) = true.
Proof.
  induction s as [|c s IH]; [done|]. cbn [allChars JS.firstLine].
  intros [Hc Hs]%andb_prop.
  destruct (Ascii.eqb c JS.LF); [reflexivity|].
  destruct (_ && _); [reflexivity|]. cbn [allChars]. by rewrite Hc, IH.
Qed.

Lemma firstLine_no_LF s : allChars (fun c => negb (Ascii.eqb c JS.LF)) (JS.firstLine s) = true.
Proof.
  induction s as [|c s IH]; [reflexivity|]. cbn [JS.firstLine].
  destruct (Ascii.eqb c JS.LF) eqn:Hc; [reflexivity|].
  destruct (_ && _); [reflexivity|]. cbn [allChars]. by rewrite Hc, IH.
Qed.

Lemma allChars_removeBracketed f s : forall skipping,
  allChars f s = true -> allChars f (JS.removeBracketed skipping s) = true.
Proof.
  induction s as [|c s IH]; intros skipping; [done|]. cbn [allChars JS.removeBracketed].
  intros [Hc Hs]%andb_prop.
  destruct skipping; [destruct (Ascii.eqb c "]"%char); by apply IH|].
  destruct (_ && _); [by apply IH|]. cbn [allChars]. by rewrite Hc, IH.
Qed.

Lemma allChars_removeToLineEnd f ignoreCase pat s : forall skipping,
  allChars f s = true -> allChars f (JS.removeToLineEnd ignoreCase pat skipping s) = true.
Proof.
  induction s as [|c s IH]; intros skipping; [done|]. cbn [allChars JS.removeToLineEnd].
  intros [Hc Hs]%andb_prop.
  destruct skipping.
  - destruct (JS.isLineTerminator c); [|by apply IH]. cbn [allChars]. by rewrite Hc, IH.
  - destruct (JS.matchesAt ignoreCase pat (String c s)); [by apply IH|].
    cbn [allChars]. by rewrite Hc, IH.
Qed.

Lemma allChars_removeAll f ignoreCase pat s : forall skip,
  allChars f s = true -> allChars f (JS.removeAll ignoreCase pat skip s) = true.
Proof.
  induction s as [|c s IH]; intros skip; [done|]. cbn [allChars JS.removeAll].
  intros [Hc Hs]%andb_prop.
  destruct skip; [|by apply IH].
  destruct (JS.matchesAt ignoreCase pat (String c s)); [by apply IH|].
  cbn [allChars]. by rewrite Hc, IH.
Qed.

Lemma removeToLineEnd_no_pipe s : forall skipping,
  allChars (fun c => negb (Ascii.eqb c "|"%char)) (JS.removeToLineEnd false "|" skipping s) = true.
Proof.
  induction s as [|c s IH]; intros skipping; [reflexivity|]. cbn [JS.removeToLineEnd].
  destruct skipping.
  - destruct (JS.isLineTerminator c) eqn:Hc; [|apply IH]. cbn [allChars]. rewrite IH, andb_true_r.
    unfold JS.isLineTerminator in Hc.
    destruct (Ascii.eqb_spec c "|"%char) as [->|_]; [discriminate|reflexivity].
  - cbn [JS.matchesAt JS.eqChar]. rewrite andb_true_r.
    destruct (Ascii.eqb_spec "|"%char c) as [<-|Hne]; [apply IH|].
    cbn [allChars]. rewrite IH, andb_true_r.
    destruct (Ascii.eqb_spec c "|"%char) as [->|_]; [done|reflexivity].
Qed.

(** X10.  Whatever the cell, the cleaned value has no white space around it, holds
    no line feed and no pipe character, and is never one of the placeholder
    words, in any case. *)
Theorem cleanLumaGarbage_clean (val : option string) :
  JS.trim (cleanLumaGarbage val) = cleanLumaGarbage val /\
  allChars (fun c => negb (Ascii.eqb c JS.LF)) (cleanLumaGarbage val) = true /\
  allChars (fun c => negb (Ascii.eqb c "|"%char)) (cleanLumaGarbage val) = true /\
  existsb (String.eqb (JS.toLowerCase (cleanLumaGarbage val))) placeholders = false.
Proof.
  unfold cleanLumaGarbage. destruct (negb (JS.truthy val)); [by repeat split|].
  set (cleaned := JS.trim (JS.removeToLineEnd false "|" false _)).
  destruct (existsb (String.eqb (JS.toLowerCase cleaned)) placeholders) eqn:Hplace;
    [by repeat split|].
  split; [apply trim_idempotent|]. split; [|split; [|exact Hplace]].
  - apply allChars_trim, allChars_removeToLineEnd, allChars_removeAll,
      allChars_removeToLineEnd, allChars_removeBracketed, firstLine_no_LF.
  - apply allChars_trim, removeToLineEnd_no_pipe.
Qed.

(** ** The progress log *)

Section ProgressProperties.

Context {oracle : Oracle}.

Lemma take_app_take {A} n (a b : list A) : take n (a ++ take n b) = take n (a ++ b).
Proof. rewrite !take_app, take_take. do 2 f_equal. lia. Qed.

Lemma enrichStep_progress i p st :
  EnrichmentProgress.logs (Batch.progress (enrichStep i p st))
  = take 50 (logEntryFor p :: EnrichmentProgress.logs (Batch.progress st)) /\
  EnrichmentProgress.current (Batch.progress (enrichStep i p st)) = i + 1 /\
  EnrichmentProgress.total (Batch.progress (enrichStep i p st))
  = EnrichmentProgress.total (Batch.progress st) /\
  EnrichmentProgress.phase (Batch.progress (enrichStep i p st)) = extracting.
Proof.
  unfold enrichStep, logEntryFor.
  destruct (currentRole p) as [currentTitle currentCompany]. cbn [fst snd].
  destruct (extractStep p currentTitle currentCompany) as [record entry]. cbn [fst snd].
  destruct (roleMissing _ _); repeat split.
Qed.

Lemma enrichLoop_progress profiles : forall i st,
  EnrichmentProgress.logs (Batch.progress st) = take 50 (EnrichmentProgress.logs (Batch.progress st)) ->
  let final := Batch.progress (enrichLoop i profiles st) in
  EnrichmentProgress.logs final
  = take 50 (reverse (List.map logEntryFor profiles) ++ EnrichmentProgress.logs (Batch.progress st)) /\
  EnrichmentProgress.total final = EnrichmentProgress.total (Batch.progress st) /\
  EnrichmentProgress.current final
  = match profiles with
    | [] => EnrichmentProgress.current (Batch.progress st)
    | _ :: _ => i + length profiles
    end.
Proof.
  induction profiles as [|p profiles IH]; intros i st Hst; cbn zeta.
  - cbn [enrichLoop List.map reverse app]. rewrite reverse_nil. split; [exact Hst|by split].
  - cbn [enrichLoop]. destruct (enrichStep_progress i p st) as (Hlogs & Hcur & Htot & _).
    destruct (IH (S i) (enrichStep i p st)) as (IHlogs & IHtot & IHcur).
    { rewrite Hlogs. rewrite take_take. f_equal. }
    cbn zeta in *. split; [|split].
    + rewrite IHlogs, Hlogs. cbn [List.map]. rewrite reverse_cons, <- app_assoc. cbn [app].
      apply take_app_take.
    + by rewrite IHtot, Htot.
    + rewrite IHcur. destruct profiles; [rewrite Hcur|]; simpl; lia.
Qed.

End ProgressProperties.

Section BatchAndSearch.

Context {oracle : Oracle}.

(** X17.  After the batch the progress object counts every profile, and its log
    holds the entries of the last fifty profiles, newest first.  An entry
    carries the name of its profile; it is an error entry when the
    extraction request failed and a success entry otherwise, also for a
    record that fell back to the title inference. *)
Theorem runEnrichment_progress (profiles : list Profile.t) :
  let progress := Batch.progress (runEnrichment profiles) in
  EnrichmentProgress.logs progress = take 50 (reverse (List.map logEntryFor profiles)) /\
  length (EnrichmentProgress.logs progress) = Nat.min 50 (length profiles) /\
  EnrichmentProgress.current progress = length profiles /\
  EnrichmentProgress.total progress = length profiles /\
  (forall p,
      logEntryFor p
      = match enrichWithGemini (Profile.name p) (currentRole p).1 (currentRole p).2
                (Profile.linkedin_url p) with
        | Some _ => LogEntry.mk (Profile.name p) success "Extracted"
        | None => LogEntry.mk (Profile.name p) error "Error"
        end).
Proof.
  cbn zeta. unfold runEnrichment.
  destruct (enrichLoop_progress profiles 0 (Batch.mk [] (initialProgress profiles)) eq_refl)
    as (Hlogs & Htot & Hcur). cbn zeta in *.
  cbn [Batch.progress initialProgress EnrichmentProgress.logs EnrichmentProgress.total
       EnrichmentProgress.current] in *.
  rewrite app_nil_r in Hlogs.
  split; [exact Hlogs|]. split; [|split; [|split; [exact Htot|]]].
  - rewrite Hlogs, length_take, length_reverse, length_map. reflexivity.
  - rewrite Hcur. by destruct profiles.
  - intros p. unfold logEntryFor, extractStep.
    destruct (enrichWithGemini _ _ _ _) as [result|]; [|reflexivity].
    by destruct (EnrichmentResult.is_valid result).
Qed.

(** X16.  When the extraction request succeeds with [is_valid] true, the record
    returned has status success and source gemini_web; its years of
    experience, region, background, responsibilities, achievements, skills
    and grounding links are those of the answer, also where the record held
    a value before; title and company are the current role; id, name,
    LinkedIn URL, e-mail and selection are the input record's. *)
Theorem valid_extraction_merges (profiles : list Profile.t) (i : nat) (p : Profile.t)
    (result : EnrichmentResult.t) :
  profiles !! i = Some p ->
  enrichWithGemini (Profile.name p) (currentRole p).1 (currentRole p).2 (Profile.linkedin_url p)
  = Some result ->
  EnrichmentResult.is_valid result = true ->
  exists r,
    startEnrichment profiles !! i = Some r /\
    Profile.enrichment_status r = success /\
    Profile.enrichment_source r = gemini_web /\
    Profile.years_of_experience r = Some (EnrichmentResult.years_of_experience result) /\
    Profile.region r = Some (EnrichmentResult.region result) /\
    Profile.background r = Some (EnrichmentResult.background result) /\
    Profile.what_they_do r = Some (EnrichmentResult.what_they_do result) /\
    Profile.achievements r = Some (EnrichmentResult.achievements result) /\
    Profile.skills r = Some (EnrichmentResult.skills result) /\
    Profile.grounding_urls r = Some (EnrichmentResult.grounding_urls result) /\
    Profile.title r = (currentRole p).1 /\
    Profile.company r = (currentRole p).2 /\
    Profile.id r = Profile.id p /\
    Profile.name r = Profile.name p /\
    Profile.linkedin_url r = Profile.linkedin_url p /\
    Profile.email r = Profile.email p /\
    Profile.selected r = Profile.selected p.
Proof.
  intros Hp Hres Hvalid. exists (enrichedRecord p).
  split; [by apply startEnrichment_lookup|].
  pose proof (enrichedRecord_cases p) as H; simpl in H. rewrite Hres, Hvalid in H. rewrite H.
  repeat split.
Qed.

(** ** The search never leaves its candidates *)

Lemma regionFilter_In selectedRegion profiles p :
  In p (regionFilter selectedRegion profiles) ->
  In p profiles /\ (selectedRegion <> allRegions -> Profile.region p = Some selectedRegion).
Proof.
  unfold regionFilter. destruct (String.eqb_spec selectedRegion allRegions) as [->|Hne]; simpl.
  - intros Hp. split; [exact Hp|]. intros H. by destruct H.
  - intros [Hp Hregion]%filter_In. split; [exact Hp|]. intros _.
    by apply bool_decide_eq_true in Hregion.
Qed.

Lemma regionFilter_length selectedRegion profiles :
  length (regionFilter selectedRegion profiles) <= length profiles.
Proof. unfold regionFilter. destruct (negb _); [apply List.filter_length_le|lia]. Qed.

Lemma handleAgentSearch_from_filtered searchQuery selectedRegion profiles :
  let filtered := regionFilter selectedRegion profiles in
  let result := handleAgentSearch searchQuery selectedRegion profiles in
  length result <= length filtered /\
  Forall (fun r => exists p, In p filtered /\ candidateOrScored p r) result.
Proof.
  cbn zeta. unfold handleAgentSearch.
  set (q := JS.trim (JS.toLowerCase searchQuery)).
  set (filtered := regionFilter selectedRegion profiles).
  assert (Hsame : forall l, (forall r, In r l -> In r filtered) ->
            Forall (fun r => exists p, In p filtered /\ candidateOrScored p r) l).
  { intros l Hl. apply Stdlib.Lists.List.Forall_forall. intros r Hr. exists r. split; [by apply Hl|by left]. }
  assert (Hsub : length (substringFilter q filtered) <= length filtered /\
                 Forall (fun r => exists p, In p filtered /\ candidateOrScored p r)
                   (substringFilter q filtered)).
  { split; [apply List.filter_length_le|]. apply Hsame. intros r Hr. by apply filter_In in Hr as [? _]. }
  destruct (String.eqb q EmptyString); [split; [lia|by apply Hsame]|].
  destruct (10 <? String.length q); [|exact Hsub].
  destruct (0 <? length (recommendProfiles q filtered)); [|exact Hsub].
  rewrite rankedMatches_sort.
  pose proof (sort_Permutation (descendingBy scoreOrZero)
                (List.map (withHit (recommendProfiles q filtered))
                   (List.filter (hasHit (recommendProfiles q filtered)) filtered))) as Hperm.
  split.
  - rewrite (Permutation_length Hperm), length_map. apply List.filter_length_le.
  - apply Stdlib.Lists.List.Forall_forall. intros r Hr.
    apply (Permutation_in _ Hperm), in_map_iff in Hr. destruct Hr as (p & <- & Hp).
    apply filter_In in Hp. destruct Hp as [Hp Hhit].
    apply hitFor_is_Some in Hhit. destruct Hhit as [h Hh].
    exists p. split; [exact Hp|]. right.
    exists (Recommendation.score h), (Recommendation.reason h). unfold withHit. by rewrite Hh.
Qed.

(** X18.  Whatever the query, the region and the answer of the ranking, the
    search returns no more records than the profiles it was given, and each
    of them is one of the profiles, as it is or with a score and a reason
    attached.  With a region selected, every record returned has that
    region. *)
Theorem handleAgentSearch_sound (searchQuery selectedRegion : string) (profiles : list Profile.t) :
  let result := handleAgentSearch searchQuery selectedRegion profiles in
  length result <= length profiles /\
  Forall (fun r => exists p, In p profiles /\ candidateOrScored p r) result /\
  (selectedRegion <> allRegions ->
   Forall (fun r => Profile.region r = Some selectedRegion) result).
Proof.
  cbn zeta.
  destruct (handleAgentSearch_from_filtered searchQuery selectedRegion profiles) as [Hlen Hall].
  cbn zeta in *. split; [|split].
  - etransitivity; [exact Hlen|apply regionFilter_length].
  - eapply Forall_impl; [exact Hall|]. cbn beta. intros r (p & Hp & Hr).
    exists p. split; [by apply regionFilter_In in Hp as [? _]|exact Hr].
  - intros Hregion. eapply Forall_impl; [exact Hall|]. cbn beta. intros r (p & Hp & Hr).
    apply regionFilter_In in Hp as [_ Hp]. specialize (Hp Hregion).
    destruct Hr as [->|(score & reason & ->)]; exact Hp.
Qed.

End BatchAndSearch.

(** ** The selection page *)

Lemma setSelected_selected p : setSelected (Profile.selected p) p = p.
Proof. by destruct p. Qed.

(** X20.  Toggling the same id twice gives the list back, provided every record
    has a selection flag, as every finalized record has. *)
Theorem toggle_involutive (id : string) (prev : list Profile.t) :
  Forall (fun p => is_Some (Profile.selected p)) prev ->
  toggle id (toggle id prev) = prev.
Proof.
  unfold toggle. induction 1 as [|p prev [b Hb] _ IH]; [reflexivity|].
  cbn [List.map]. rewrite IH. f_equal.
  destruct (String.eqb (Profile.id p) id) eqn:Hid.
  - cbn [setSelected Profile.id]. rewrite Hid. destruct p as [? ? ? ? ? ? ? sel]; cbn in *.
    subst sel. cbn. by rewrite negb_involutive.
  - by rewrite Hid.
Qed.

Lemma includes_empty s : JS.includes s EmptyString = true.
Proof. destruct s; reflexivity. Qed.

Lemma matchesRoleSearch_empty p : matchesRoleSearch EmptyString p = true.
Proof. unfold matchesRoleSearch. cbn [JS.toLowerCase]. by rewrite includes_empty. Qed.

Lemma selectFiltered_matching roleSearch prev p :
  In p prev -> matchesRoleSearch roleSearch p = true ->
  bool_decide (Profile.id p ∈ (list_to_set (List.map Profile.id (filteredList roleSearch prev)) : gset string))
  = true.
Proof.
  intros Hp Hmatch. apply bool_decide_eq_true, elem_of_list_to_set, list_elem_of_In, in_map.
  apply filter_In. by split.
Qed.

(** X21.  Selecting the filtered records keeps the number and the order of the
    records and changes at most their selection flag.  Every record that
    matches the role search gets the flag; a record is left as it is when no
    matching record has its id. *)
Theorem selectFiltered_spec (roleSearch : string) (selected : bool) (prev : list Profile.t) :
  length (selectFiltered roleSearch selected prev) = length prev /\
  forall i p,
    prev !! i = Some p ->
    exists r,
      selectFiltered roleSearch selected prev !! i = Some r /\
      sameButSelected p r /\
      (matchesRoleSearch roleSearch p = true -> Profile.selected r = Some selected) /\
      ((forall q, In q prev -> matchesRoleSearch roleSearch q = true -> Profile.id q <> Profile.id p) ->
       r = p).
Proof.
  unfold selectFiltered. split; [apply length_map|]. intros i p Hp.
  change (List.map ?f prev) with (f <$> prev). rewrite list_lookup_fmap, Hp. cbn [fmap option_fmap option_map].
  eexists. split; [reflexivity|].
  destruct (bool_decide (Profile.id p ∈ _)) eqn:Hin.
  - split; [unfold sameButSelected; by destruct p|]. split; [reflexivity|].
    intros Hnone. exfalso.
    apply bool_decide_eq_true, elem_of_list_to_set, list_elem_of_In, in_map_iff in Hin.
    destruct Hin as (q & Hid & Hq). apply filter_In in Hq as [Hq Hmatch].
    by apply (Hnone q Hq Hmatch).
  - split; [apply setSelected_selected|]. split; [|reflexivity].
    intros Hmatch. apply list_elem_of_lookup_2, list_elem_of_In in Hp.
    by rewrite (selectFiltered_matching roleSearch prev p Hp Hmatch) in Hin.
Qed.

(** X22.  With an empty role search, selecting all hands every record to the
    enrichment, and deselecting all leaves none, so that the enrichment
    cannot be started. *)
Theorem selectFiltered_everything (prev : list Profile.t) :
  selectedProfiles (selectFiltered EmptyString true prev) = List.map (setSelected (Some true)) prev /\
  selectedProfiles (selectFiltered EmptyString false prev) = [] /\
  selectedCount (selectFiltered EmptyString false prev) = 0.
Proof.
  assert (Hall : forall b, selectFiltered EmptyString b prev = List.map (setSelected (Some b)) prev).
  { intros b. unfold selectFiltered. apply map_ext_in. intros p Hp.
    by rewrite (selectFiltered_matching EmptyString prev p Hp (matchesRoleSearch_empty p)). }
  unfold selectedCount, selectedProfiles. rewrite !Hall. clear Hall.
  assert (Hnone : List.filter isSelected (List.map (setSelected (Some false)) prev) = []).
  { induction prev as [|p prev IH]; [reflexivity|]. cbn [List.map List.filter].
    change (isSelected (setSelected (Some false) p)) with false. exact IH. }
  split; [|by rewrite Hnone].
  clear Hnone. induction prev as [|p prev IH]; [reflexivity|]. cbn [List.map List.filter].
  change (isSelected (setSelected (Some true) p)) with true. cbv iota. by rewrite IH.
Qed.

(** ** The regions offered *)

Lemma setValues_spec l : forall seen,
  NoDup seen ->
  NoDup (setValues seen l) /\ forall x, In x (setValues seen l) <-> In x seen \/ In x l.
Proof.
  induction l as [|y l IH]; intros seen Hseen; cbn [setValues].
  - split; [exact Hseen|]. intros x. simpl. tauto.
  - destruct (existsb (String.eqb y) seen) eqn:Hy.
    + destruct (IH seen Hseen) as [Hnd Hin]. split; [exact Hnd|]. intros x. rewrite Hin.
      apply existsb_exists in Hy. destruct Hy as (z & Hz & Hyz). apply String.eqb_eq in Hyz. subst z.
      simpl. split; [tauto|]. intros [?|[<-|?]]; tauto.
    + assert (Hnot : ~ In y seen).
      { intros Hin. assert (existsb (String.eqb y) seen = true); [|congruence].
        apply existsb_exists. exists y. split; [exact Hin|apply String.eqb_refl]. }
      destruct (IH (seen ++ [y])) as [Hnd Hin].
      { apply NoDup_app. split; [exact Hseen|]. split; [|apply NoDup_singleton].
        intros x Hx Hxy%list_elem_of_singleton. subst. by apply Hnot, list_elem_of_In. }
      split; [exact Hnd|]. intros x. rewrite Hin, in_app_iff. simpl. tauto.
Qed.

Lemma truthyRegions_In profiles r :
  In r (truthyRegions profiles) <->
  r <> EmptyString /\ exists p, In p profiles /\ Profile.region p = Some r.
Proof.
  unfold truthyRegions. rewrite <- list_elem_of_In, list_elem_of_omap. split.
  - intros (p & Hp & Hr). apply list_elem_of_In in Hp.
    destruct (Profile.region p) as [s|] eqn:Hs; cbn in Hr; [|discriminate].
    destruct (String.eqb_spec s EmptyString) as [|Hne]; cbn in Hr; [discriminate|].
    injection Hr as <-. split; [exact Hne|]. by exists p.
  - intros (Hne & p & Hp & Hr). exists p. split; [by apply list_elem_of_In|].
    rewrite Hr. cbn. by destruct (String.eqb_spec r EmptyString).
Qed.

(** X19.  The list of regions starts with the entry for all regions; after it
    come, without repetition, exactly the non-empty regions that profiles
    have, and each of them, chosen as the filter, keeps at least one
    profile. *)
Theorem regions_offered (profiles : list Profile.t) :
  exists rs,
    regions profiles = allRegions :: rs /\
    NoDup rs /\
    (forall r, In r rs <-> r <> EmptyString /\ exists p, In p profiles /\ Profile.region p = Some r) /\
    (forall r, In r rs -> exists p, In p (regionFilter r profiles)).
Proof.
  eexists. split; [reflexivity|].
  destruct (setValues_spec (truthyRegions profiles) [] (NoDup_nil_2)) as [Hnd Hin].
  assert (Hiff : forall r, In r (setValues [] (truthyRegions profiles)) <->
            r <> EmptyString /\ exists p, In p profiles /\ Profile.region p = Some r).
  { intros r. rewrite Hin, <- truthyRegions_In. simpl. tauto. }
  split; [exact Hnd|]. split; [exact Hiff|].
  intros r Hr. apply Hiff in Hr as (_ & p & Hp & Hregion). exists p.
  unfold regionFilter. destruct (negb _); [|exact Hp].
  apply filter_In. split; [exact Hp|]. by apply bool_decide_eq_true.
Qed.

(** ** When the restore returns *)

Section RestoreReturns.

Variable Date_now : nat -> N.

Lemma unquotedCell_cases h c d row :
  if match JS.indexOf h c with
     | Some k => k <? length row
     | None => true
     end
  then is_Some (unquotedCell (JS.indexOf h c) d row)
  else unquotedCell (JS.indexOf h c) d row = None.
Proof.
  unfold unquotedCell, cell. destruct (JS.indexOf h c) as [k|]; [|by eexists].
  destruct (Nat.ltb_spec k (length row)) as [Hk|Hk].
  - destruct (lookup_lt_is_Some_2 row k Hk) as [v ->]. by eexists.
  - by rewrite (lookup_ge_None_2 row k Hk).
Qed.

Lemma restoreRow_is_Some h i row :
  is_Some (restoreRow Date_now h i row) <-> rowComplete h row = true.
Proof.
  unfold restoreRow, rowComplete. cbn [forallb requiredColumns].
  repeat match goal with
         | |- context [unquotedCell (JS.indexOf h ?c) ?d row] =>
             let H := fresh "Hcell" in
             pose proof (unquotedCell_cases h c d row) as H;
             destruct (match JS.indexOf h c with
                       | Some k => k <? length row
                       | None => true
                       end);
             [ destruct H as [? ->]; cbn [mbind option_bind andb]
             | rewrite H; cbn [mbind option_bind andb];
               split; [intros [? ?]; discriminate|discriminate] ]
         end.
  split; [reflexivity|]. intros _. by eexists.
Qed.

Lemma restoreRows_is_Some h rows : forall i,
  is_Some (restoreRows Date_now h i rows) <-> forallb (rowComplete h) rows = true.
Proof.
  induction rows as [|row rows IH]; intros i; cbn [restoreRows forallb].
  - split; [reflexivity|]. intros _. by eexists.
  - rewrite andb_true_iff, <- (restoreRow_is_Some h i row), <- (IH (S i)).
    destruct (restoreRow Date_now h i row) as [p|]; cbn [mbind option_bind].
    + destruct (restoreRows Date_now h (S i) rows) as [ps|]; cbn [mbind option_bind].
      * split; [intros _; split; by eexists|intros _; by eexists].
      * split; [intros [? ?]; discriminate|intros [_ [? ?]]; discriminate].
    + split; [intros [? ?]; discriminate|intros [[? ?] _]; discriminate].
Qed.

(** X7.  The restore returns exactly when every row has a cell for each of the
    nine text columns that the header row names; a row that lacks one makes
    it raise.  A missing skills cell never does: the skills are then
    empty. *)
Theorem parseEnrichedCSV_returns_iff (headers : list string) (rows : list (list string)) :
  (is_Some (parseEnrichedCSV Date_now headers rows) <->
   forallb (rowComplete (List.map normalizeHeader headers)) rows = true) /\
  (forall row skillsIdx, row !! skillsIdx = None -> parseSkills (Some skillsIdx) row = []) /\
  (forall row, parseSkills None row = []).
Proof.
  split; [apply restoreRows_is_Some|]. split; [|reflexivity].
  intros row skillsIdx Hrow. unfold parseSkills, cell. by rewrite Hrow.
Qed.

End RestoreReturns.

(** ** The pass after the column mapping *)

Section FinalizePass.

Context {oracle : Oracle}.

Lemma discoverRole_keeps p :
  Profile.id (discoverRole p) = Profile.id p /\
  Profile.name (discoverRole p) = Profile.name p /\
  Profile.linkedin_url (discoverRole p) = Profile.linkedin_url p /\
  Profile.email (discoverRole p) = Profile.email p /\
  Profile.selected (discoverRole p) = Profile.selected p /\
  Profile.enrichment_status (discoverRole p) = Profile.enrichment_status p /\
  Profile.enrichment_source (discoverRole p) = Profile.enrichment_source p.
Proof. unfold discoverRole. destruct (roleMissing _ _); repeat split. Qed.

(** X14.  The pass returns one record per row.  Each is the finalized record of
    its row with at most title, company and region changed: every other
    field (id, name, LinkedIn URL, e-mail, selection, status and source
    among them) is as the finalizer left it.  A record that has both a title
    and a company is returned as it is, whatever the identification would
    answer. *)
Theorem handleFinalize_preserves (Date_now : nat -> N) (mappings : list ColumnMapping.t)
    (rows : list (list string)) :
  length (handleFinalize Date_now mappings rows) = length rows /\
  forall i p,
    finalizeProfiles Date_now mappings rows !! i = Some p ->
    exists r,
      handleFinalize Date_now mappings rows !! i = Some r /\
      Profile.id r = Profile.id p /\
      Profile.name r = Profile.name p /\
      Profile.linkedin_url r = Profile.linkedin_url p /\
      Profile.email r = Profile.email p /\
      Profile.selected r = Profile.selected p /\
      Profile.enrichment_status r = Profile.enrichment_status p /\
      Profile.enrichment_source r = Profile.enrichment_source p /\
      sameButRole p r /\
      (roleMissing (Profile.title p) (Profile.company p) = false -> r = p).
Proof.
  rewrite handleFinalize_map. split; [by rewrite length_map, finalizeProfiles_length|].
  intros i p Hp. exists (discoverRole p). split.
  - change (List.map discoverRole ?l) with (discoverRole <$> l). by rewrite list_lookup_fmap, Hp.
  - destruct (discoverRole_keeps p) as (H1 & H2 & H3 & H4 & H5 & H6 & H7).
    repeat (split; [assumption|]).
    split; [apply discoverRole_sameButRole|apply discoverRole_complete].
Qed.

End FinalizePass.

(** ** A quote that is never closed *)

Lemma scanLoop_in_quotes s : forall res row acc,
  allChars (fun c => negb (Ascii.eqb c JS.dquote)) s = true ->
  scanLoop s false (Scan.mk res row acc true) = Scan.mk res row (acc +:+ s) true.
Proof.
  induction s as [|c s IH]; intros res row acc; cbn [allChars].
  - intros _. by rewrite append_empty_r.
  - intros [Hc Hs]%andb_prop. apply negb_true_iff in Hc.
    rewrite scanLoop_cons. unfold scanStep. cbn [Scan.inQuotes]. rewrite Hc. cbn [andb fst snd].
    unfold pushChar. cbn [Scan.result Scan.row Scan.currField Scan.inQuotes].
    by rewrite (IH _ _ _ Hs), append_snoc.
Qed.

(** X3.  A quote that is opened and never closed swallows the rest of the text:
    commas and line breaks included, it becomes the single cell of the
    header row, trimmed, and there is no data row. *)
Theorem parseRawCSV_open_quote (s : string) :
  allChars (fun c => negb (Ascii.eqb c JS.dquote)) s = true ->
  s <> EmptyString ->
  parseRawCSV (String JS.dquote s) = Parsed.mk [JS.trim s] [].
Proof.
  intros Hs Hne. unfold parseRawCSV. rewrite scanLoop_cons.
  change (scanStep JS.dquote (peek s) Scan.init) with (Scan.mk [] [] EmptyString true, false).
  cbn [fst snd]. rewrite (scanLoop_in_quotes s _ _ _ Hs).
  change (EmptyString +:+ s) with s. unfold flush. cbn [Scan.row Scan.currField length Nat.eqb negb orb].
  destruct (String.eqb_spec s EmptyString) as [|_]; [done|]. reflexivity.
Qed.

(** ** Instances *)

Lemma parseRawCSV_plain_lines_witness :
  Forall (fun vs => vs <> [] /\ Forall plainCell vs) [["Name"; "Title"]; ["Ann"; " CEO "]; ["Bob"]] /\
  endsText (List.last [["Name"; "Title"]; ["Ann"; " CEO "]; ["Bob"]] [EmptyString; EmptyString]) /\
  parseRawCSV (JS.join (List.map (fun vs => JS.join vs ",") [["Name"; "Title"]; ["Ann"; " CEO "]; ["Bob"]])
                 (String JS.LF EmptyString))
  = Parsed.mk (List.map JS.trim ["Name"; "Title"]) (List.map (List.map JS.trim) [["Ann"; " CEO "]; ["Bob"]]).
Proof.
  assert (Hrows : Forall (fun vs => vs <> [] /\ Forall plainCell vs)
                    [["Name"; "Title"]; ["Ann"; " CEO "]; ["Bob"]])
    by (repeat constructor; done).
  assert (Hlast : endsText (List.last [["Name"; "Title"]; ["Ann"; " CEO "]; ["Bob"]]
                              [EmptyString; EmptyString]))
    by (right; exists "Bob"; split; done).
  split; [exact Hrows|]. split; [exact Hlast|].
  exact (parseRawCSV_plain_lines ["Name"; "Title"] [["Ann"; " CEO "]; ["Bob"]] Hrows Hlast).
Defined.

Lemma parseRawCSV_exportToCSV_witness :
  Forall (fun p => is_Some (Profile.name p)) [Scenario.ada; Scenario.bob] /\
  exists text,
    exportToCSV [Scenario.ada; Scenario.bob] = Some text /\
    parseRawCSV text
    = Parsed.mk exportHeaders
        (List.map (fun p => List.map JS.trim (exportedValues p)) [Scenario.ada; Scenario.bob]).
Proof.
  assert (Hnames : Forall (fun p => is_Some (Profile.name p)) [Scenario.ada; Scenario.bob])
    by (repeat constructor; by eexists).
  split; [exact Hnames|]. exact (parseRawCSV_exportToCSV [Scenario.ada; Scenario.bob] Hnames).
Defined.


Lemma parseSkills_join_plain_witness :
  Forall plainSkill ["Rust"; "Team leadership"] /\
  parseSkills (Some 1) ["Ann"; JS.trim (JS.join ["Rust"; "Team leadership"] ", ")]
  = ["Rust"; "Team leadership"].
Proof.
  assert (Hplain : Forall plainSkill ["Rust"; "Team leadership"])
    by (repeat constructor; done).
  split; [exact Hplain|].
  exact (parseSkills_join_plain ["Rust"; "Team leadership"] 1
           ["Ann"; JS.trim (JS.join ["Rust"; "Team leadership"] ", ")] Hplain eq_refl).
Defined.

Lemma finalizeProfiles_last_name_column_witness :
  let mappings := detectMappings ["Name"; "Nickname"] [["Jane Roe"; "JJ"]] in
  List.map isNameMapping mappings = [true; true] /\
  Profile.name <$> (finalizeProfiles Scenario.clock mappings [["Jane Roe"; "JJ"]] !! 0)
  = Some (Some "JJ").
Proof.
  split; [reflexivity|].
  exact (finalizeProfiles_last_name_column Scenario.clock
           (detectMappings ["Name"; "Nickname"] [["Jane Roe"; "JJ"]]) [["Jane Roe"; "JJ"]]
           0 ["Jane Roe"; "JJ"] eq_refl).
Defined.

Lemma valid_extraction_merges_witness :
  EnrichmentResult.is_valid Scenario.adaFacts = true /\
  exists r,
    startEnrichment (oracle := Scenario.oracle) [Scenario.bob; Scenario.ada] !! 1 = Some r /\
    Profile.enrichment_status r = success /\
    Profile.enrichment_source r = gemini_web /\
    Profile.years_of_experience r = Some "12" /\
    Profile.region r = Some "Berlin" /\
    Profile.title r = Some "CTO" /\
    Profile.company r = Some "Acme".
Proof.
  split; [reflexivity|].
  destruct (valid_extraction_merges (oracle := Scenario.oracle) [Scenario.bob; Scenario.ada] 1
              Scenario.ada Scenario.adaFacts eq_refl eq_refl eq_refl)
    as (r & Hr & Hstatus & Hsource & Hyears & Hregion & _ & _ & _ & _ & _ & Htitle & Hcompany & _).
  exists r. repeat split; assumption.
Defined.

Lemma toggle_involutive_witness :
  Forall (fun p => is_Some (Profile.selected p)) [Scenario.ada; Scenario.bob] /\
  toggle "profile-0-1" (toggle "profile-0-1" [Scenario.ada; Scenario.bob]) = [Scenario.ada; Scenario.bob].
Proof.
  assert (Hflags : Forall (fun p => is_Some (Profile.selected p)) [Scenario.ada; Scenario.bob])
    by (repeat constructor; by eexists).
  split; [exact Hflags|]. exact (toggle_involutive "profile-0-1" [Scenario.ada; Scenario.bob] Hflags).
Defined.

Lemma parseRawCSV_open_quote_witness :
  parseRawCSV (String JS.dquote ("Jane, A" +:+ String JS.LF "CEO"))
  = Parsed.mk [JS.trim ("Jane, A" +:+ String JS.LF "CEO")] [].
Proof.
  apply (parseRawCSV_open_quote ("Jane, A" +:+ String JS.LF "CEO")); [reflexivity|discriminate].
Defined.

Lemma identification_failure_keeps_role_witness :
  askRole (Oracle := Scenario.oracle) (Profile.name Scenario.dana) (Profile.linkedin_url Scenario.dana) = None /\
  currentRole (oracle := Scenario.oracle) Scenario.dana = (None, None) /\
  discoverRole (oracle := Scenario.oracle) Scenario.dana = Scenario.dana.
Proof.
  split; [reflexivity|].
  exact (identification_failure_keeps_role (oracle := Scenario.oracle) Scenario.dana eq_refl).
Defined.
